(** * ams_compiler: the indentation tree builder and the tree compiler

    A shallow embedding of [build_tree], [__build_element__],
    [__count_indents__], [compile_tree_list] and of the classes [marker] and
    [node] of [ams_compiler.py], followed by the properties of the
    specification that concern them. The second half of Part II embeds
    more of the file ([to_str], the line splitting of [compile_file], the
    checks and loops of [main]), and Part IV proves further properties of
    the code.

    Conventions of the embedding.
    - A Python [str] is a [string]; a character is a code point below 256,
      and [isspace] is Python's [str.isspace] on that range.
    - Line numbers and indentation counts are [nat]: the source only ever
      starts them at 0 and adds to them.
    - A Python value that can sit in a variable of the builder is a [pyval]:
      [None], a [str], a [marker] object or a [node] object.
    - An exception is an explicit [Raise]; [warnings.warn], under Python's
      default filters, records a warning and returns, so the warnings issued
      are threaded through the builder as a list, oldest first.
    - The two [while] loops and the recursion of [__build_element__] take a
      fuel argument; [build_tree] supplies [fuel_for file], and the section
      on termination shows that this is always enough.
    - The [debug] flag only prints; it is left out. The interpreter's
      recursion limit is not modelled: the recursion is as deep as the
      input asks. *)

From Stdlib Require Import String Ascii List Arith Bool Lia.
Import ListNotations.
Local Open Scope string_scope.
Local Open Scope list_scope.
Local Open Scope nat_scope.

(** * Part I: the embedding of the source *)

(** ** Python values, exceptions and results *)

Inductive exn : Type :=
| IndexError
| AttributeError.

Inductive result (A : Type) : Type :=
| Ok (a : A)
| Raise (e : exn)
| OutOfFuel.

Arguments Ok {A} a.
Arguments Raise {A} e.
Arguments OutOfFuel {A}.

Definition bind {A B : Type} (m : result A) (k : A -> result B) : result B :=
  match m with
  | Ok a => k a
  | Raise e => Raise e
  | OutOfFuel => OutOfFuel
  end.

Notation "x <- m ;; k" := (bind m (fun x => k))
  (at level 61, m at next level, right associativity).
Notation "' p <- m ;; k" := (bind m (fun x => match x with p => k end))
  (at level 61, p pattern, m at next level, right associativity).

#[warnings="-register-all"]
Inductive pyval : Type :=
| PyNone
| PyStr (s : string)
| PyMarker (string : string)
| PyNode (string : string) (children : list pyval).

(** The warnings issued so far, oldest first. *)
Definition warnings : Type := list string.

(** ** Strings: [str.strip], [str.startswith], [len] *)

Definition tab : ascii := "009"%char.

(** [str.isspace] on the code points below 256: U+0009..U+000D,
    U+001C..U+0020, U+0085 and U+00A0. *)
Definition isspace (c : ascii) : bool :=
  let n := nat_of_ascii c in
  ((9 <=? n) && (n <=? 13)) || ((28 <=? n) && (n <=? 32))
  || (n =? 133) || (n =? 160).

Fixpoint lstrip (s : string) : string :=
  match s with
  | EmptyString => EmptyString
  | String c rest => if isspace c then lstrip rest else s
  end.

Fixpoint rstrip (s : string) : string :=
  match s with
  | EmptyString => EmptyString
  | String c rest =>
      match rstrip rest with
      | EmptyString => if isspace c then EmptyString else String c EmptyString
      | rest' => String c rest'
      end
  end.

Definition strip (s : string) : string := rstrip (lstrip s).

Definition startswith (s prefix : string) : bool := String.prefix prefix s.

Definition len (s : string) : nat := String.length s.

(** ** [__count_indents__] *)

Definition indent_chars : list ascii := [tab; " "%char].

(** The [for char in string] loop, with its [break]. *)
Fixpoint count_indents_loop (string : string) (indents : nat) : nat :=
  match string with
  | EmptyString => indents
  | String char rest =>
      if existsb (Ascii.eqb char) indent_chars
      then count_indents_loop rest (indents + 1)
      else indents
  end.

Definition __count_indents__ (string : string) : nat :=
  count_indents_loop string 0.

(** ** The classes [marker] and [node] *)

Definition marker (string : string) : pyval := PyMarker string.
Definition node (string : string) : pyval := PyNode string [].

Definition warn_text : string := "Cannot add child to comment.".

(** [self.add_child(child)]: the method of the class of [self]. A [marker]
    warns and keeps nothing; a [node] appends, first wrapping a [str] child
    in a fresh [node]. [None] and [str] have no such method. *)
Definition add_child (self child : pyval) (w : warnings)
  : result (pyval * warnings) :=
  match self with
  | PyMarker s => Ok (PyMarker s, w ++ [warn_text])
  | PyNode s children =>
      let child := match child with PyStr c => node c | _ => child end in
      Ok (PyNode s (children ++ [child]), w)
  | PyNone | PyStr _ => Raise AttributeError
  end.

(** [self.compile(parent)]. *)
Fixpoint compile (self : pyval) (parent : string) : result (list string) :=
  match self with
  | PyMarker s => Ok [s]
  | PyNode s children =>
      let next_str := (parent ++ s ++ " ")%string in
      if 0 <? length children then
        (fix for_child (cs : list pyval) (next_list : list string)
           : result (list string) :=
           match cs with
           | [] => Ok next_list
           | child :: cs' =>
               l <- compile child next_str ;;
               for_child cs' (next_list ++ l)
           end) children []
      else Ok [next_str]
  | PyNone | PyStr _ => Raise AttributeError
  end.

(** ** [compile_tree_list] *)

(** The first loop: [compiled_list += tree.compile()]. *)
Fixpoint compiled_list_loop (tree_list : list pyval) (compiled_list : list string)
  : result (list string) :=
  match tree_list with
  | [] => Ok compiled_list
  | tree :: rest =>
      l <- compile tree "" ;;
      compiled_list_loop rest (compiled_list ++ l)
  end.

Definition newline : string := String "010"%char EmptyString.

(** The second loop: [compiled_string += element+"\n"]. *)
Fixpoint compiled_string_loop (compiled_list : list string) (compiled_string : string)
  : string :=
  match compiled_list with
  | [] => compiled_string
  | element :: rest =>
      compiled_string_loop rest (compiled_string ++ (element ++ newline))%string
  end.

Definition compiled_list (tree_list : list pyval) : result (list string) :=
  compiled_list_loop tree_list [].

Definition compile_tree_list (tree_list : list pyval) : result string :=
  compiled_list <- compiled_list tree_list ;;
  Ok (compiled_string_loop compiled_list "").

(** ** [__build_element__] and [build_tree] *)

Fixpoint __build_element__ (fuel : nat) (file : list string) (line : nat)
  (w : warnings) {struct fuel} : result (pyval * nat * warnings) :=
  match fuel with
  | 0 => OutOfFuel
  | S fuel =>
      match nth_error file line with
      | None => Raise IndexError
      | Some command =>
          if len (strip command) =? 0 then Ok (PyNone, line, w)
          else
            let indent := __count_indents__ command in
            let current_element :=
              if startswith (strip command) "#"
              then marker (strip command)
              else node (strip command) in
            let next_line := line + 1 in
            children_loop fuel file indent current_element next_line w
      end
  end

(** The [while next_line != len(file)] loop of [__build_element__]. *)
with children_loop (fuel : nat) (file : list string) (indent : nat)
  (current_element : pyval) (next_line : nat) (w : warnings) {struct fuel}
  : result (pyval * nat * warnings) :=
  match fuel with
  | 0 => OutOfFuel
  | S fuel =>
      if next_line =? length file then Ok (current_element, next_line, w)
      else
        match nth_error file next_line with
        | None => Raise IndexError
        | Some next_command =>
            if len (strip next_command) =? 0
            then children_loop fuel file indent current_element (next_line + 1) w
            else
              let next_indent := __count_indents__ next_command in
              if indent <? next_indent then
                '(next_child, next_line, w) <- __build_element__ fuel file next_line w ;;
                '(current_element, w) <- add_child current_element next_child w ;;
                children_loop fuel file indent current_element next_line w
              else Ok (current_element, next_line, w)
        end
  end.

(** The [while line < len(file)] loop of [build_tree]. *)
Fixpoint build_tree_loop (fuel : nat) (file : list string) (line : nat)
  (tree_list : list pyval) (w : warnings) : result (list pyval * warnings) :=
  match fuel with
  | 0 => OutOfFuel
  | S fuel =>
      if line <? length file then
        match nth_error file line with
        | None => Raise IndexError
        | Some command =>
            if len (strip command) =? 0
            then build_tree_loop fuel file (line + 1) tree_list w
            else
              '(next_tree, line, w) <- __build_element__ fuel file line w ;;
              build_tree_loop fuel file line (tree_list ++ [next_tree]) w
        end
      else Ok (tree_list, w)
  end.

Definition fuel_for (file : list string) : nat := 2 * length file + 2.

(** [build_tree(file)]: the root list, and the warnings issued on the way. *)
Definition build_tree (file : list string) : result (list pyval * warnings) :=
  build_tree_loop (fuel_for file) file 0 [] [].

(** The two middle statements of [compile_file]: build, then compile. *)
Definition compile_text (in_text : list string) : result string :=
  '(tree_list, _) <- build_tree in_text ;;
  compile_tree_list tree_list.

(** * Part II: the vocabulary of the properties *)

(** ** Induction over Python values *)

Section pyval_induction.
Variable P : pyval -> Prop.
Hypothesis HNone : P PyNone.
Hypothesis HStr : forall s, P (PyStr s).
Hypothesis HMarker : forall s, P (PyMarker s).
Hypothesis HNode : forall s children, Forall P children -> P (PyNode s children).

Fixpoint pyval_nested_ind (v : pyval) : P v :=
  match v with
  | PyNone => HNone
  | PyStr s => HStr s
  | PyMarker s => HMarker s
  | PyNode s children =>
      HNode s children
        ((fix all (l : list pyval) : Forall P l :=
            match l with
            | [] => Forall_nil P
            | x :: l' => Forall_cons x (pyval_nested_ind x) (all l')
            end) children)
  end.
End pyval_induction.

(** ** Lines *)

(** Some character of [s] is not whitespace. *)
Fixpoint has_nonspace (s : string) : bool :=
  match s with
  | EmptyString => false
  | String c rest => negb (isspace c) || has_nonspace rest
  end.

(** The test [len(command.strip()) == 0] of the source. *)
Definition is_blank (command : string) : bool := len (strip command) =? 0.

(** The characters of [s] all satisfy [P]. *)
Fixpoint string_forall (P : ascii -> Prop) (s : string) : Prop :=
  match s with
  | EmptyString => True
  | String c rest => P c /\ string_forall P rest
  end.

Definition is_indent_char (c : ascii) : Prop := c = tab \/ c = " "%char.

(** The line kinds of the specification. *)
Inductive line_kind : Type := kind_blank | kind_comment | kind_command.

(** Following the words of the specification: blank when empty after
    trimming, comment when the trimmed content starts with [#], else
    command. *)
Definition classify (line : string) : line_kind :=
  match strip line with
  | EmptyString => kind_blank
  | String c _ => if Ascii.eqb c "#"%char then kind_comment else kind_command
  end.

(** [j] is the first line after [i] that is not blank. *)
Definition next_nonblank (file : list string) (i j : nat) : Prop :=
  i < j /\
  (exists cj, nth_error file j = Some cj /\ is_blank cj = false) /\
  forall k ck, i < k < j -> nth_error file k = Some ck -> is_blank ck = true.

(** Line [i] is a comment, and the first non-blank line after it is
    strictly deeper. *)
Definition comment_above_deeper_line (file : list string) (i : nat) : Prop :=
  exists c j cj,
    nth_error file i = Some c /\ classify c = kind_comment /\
    next_nonblank file i j /\ nth_error file j = Some cj /\
    __count_indents__ c < __count_indents__ cj.

Definition nonblank_lines (file : list string) : list string :=
  filter (fun c => negb (is_blank c)) file.

(** The number of non-blank lines before line [i]. *)
Fixpoint rank (file : list string) (i : nat) : nat :=
  match file, i with
  | c :: rest, S i' => (if is_blank c then 0 else 1) + rank rest i'
  | _, _ => 0
  end.

(** ** The builder as a big-step relation

    [builds file line w e n w'] reads: a call of [__build_element__] at
    [line], with warnings [w] issued so far, returns the element [e] and the
    next line [n], having issued [w']. [loops] is the same for the [while]
    loop of [__build_element__] and [roots] for the loop of [build_tree].
    The relations are derived from the functions ([build_sound],
    [roots_sound]); they carry the inductions of Part III. *)

Definition new_element (command : string) : pyval :=
  if startswith (strip command) "#"
  then marker (strip command)
  else node (strip command).

Inductive builds (file : list string)
  : nat -> warnings -> pyval -> nat -> warnings -> Prop :=
| builds_blank line w c :
    nth_error file line = Some c ->
    is_blank c = true ->
    builds file line w PyNone line w
| builds_elem line w c e n w' :
    nth_error file line = Some c ->
    is_blank c = false ->
    loops file (__count_indents__ c) (new_element c) (line + 1) w e n w' ->
    builds file line w e n w'
with loops (file : list string)
  : nat -> pyval -> nat -> warnings -> pyval -> nat -> warnings -> Prop :=
| loops_end indent cur w :
    loops file indent cur (length file) w cur (length file) w
| loops_skip indent cur m w c e n w' :
    m <> length file ->
    nth_error file m = Some c ->
    is_blank c = true ->
    loops file indent cur (m + 1) w e n w' ->
    loops file indent cur m w e n w'
| loops_child indent cur m w c child n1 w1 cur2 w2 e n w' :
    m <> length file ->
    nth_error file m = Some c ->
    is_blank c = false ->
    indent < __count_indents__ c ->
    builds file m w child n1 w1 ->
    add_child cur child w1 = Ok (cur2, w2) ->
    loops file indent cur2 n1 w2 e n w' ->
    loops file indent cur m w e n w'
| loops_break indent cur m w c :
    m <> length file ->
    nth_error file m = Some c ->
    is_blank c = false ->
    ~ indent < __count_indents__ c ->
    loops file indent cur m w cur m w.

Scheme builds_mut := Induction for builds Sort Prop
  with loops_mut := Induction for loops Sort Prop.
Combined Scheme builds_loops_ind from builds_mut, loops_mut.

Inductive roots (file : list string)
  : nat -> list pyval -> warnings -> list pyval -> warnings -> Prop :=
| roots_end line tree_list w :
    ~ line < length file ->
    roots file line tree_list w tree_list w
| roots_skip line tree_list w c trees w' :
    line < length file ->
    nth_error file line = Some c ->
    is_blank c = true ->
    roots file (line + 1) tree_list w trees w' ->
    roots file line tree_list w trees w'
| roots_elem line tree_list w c next_tree n w1 trees w' :
    line < length file ->
    nth_error file line = Some c ->
    is_blank c = false ->
    builds file line w next_tree n w1 ->
    roots file n (tree_list ++ [next_tree]) w1 trees w' ->
    roots file line tree_list w trees w'.

(** A [marker] or a [node] object. *)
Definition is_object (v : pyval) : bool :=
  match v with
  | PyMarker _ | PyNode _ _ => true
  | PyNone | PyStr _ => false
  end.

(** ** Trees *)

(** The [for child in self.children] loop of [node.compile]. *)
Fixpoint for_child (next_str : string) (cs : list pyval) (next_list : list string)
  : result (list string) :=
  match cs with
  | [] => Ok next_list
  | child :: cs' =>
      l <- compile child next_str ;;
      for_child next_str cs' (next_list ++ l)
  end.

(** Every object of the tree is a [marker] or a [node] whose text
    satisfies [P]. *)
Fixpoint all_nodes (P : string -> bool) (v : pyval) : bool :=
  match v with
  | PyMarker s => P s
  | PyNode s children => P s && forallb (all_nodes P) children
  | PyNone | PyStr _ => false
  end.

(** A real tree: a [marker] or a [node], and so are all its descendants;
    no [None] (and no bare [str]) anywhere. *)
Definition real (v : pyval) : bool := all_nodes (fun _ => true) v.

(** The Command Nodes without children, and the Markers, of a tree. *)
Fixpoint leaf_count (v : pyval) : nat :=
  match v with
  | PyNode _ [] => 1
  | PyNode _ children => list_sum (map leaf_count children)
  | _ => 0
  end.

Fixpoint marker_count (v : pyval) : nat :=
  match v with
  | PyMarker _ => 1
  | PyNode _ children => list_sum (map marker_count children)
  | _ => 0
  end.

Definition line_count (v : pyval) : nat := leaf_count v + marker_count v.

(** A Marker with text [m] occurs in the tree. *)
Inductive marker_in (m : string) : pyval -> Prop :=
| marker_here : marker_in m (PyMarker m)
| marker_below s children child :
    In child children -> marker_in m child -> marker_in m (PyNode s children).

(** [e] is what some call of the element builder at a non-blank line of
    the file returns. *)
Definition built (file : list string) (e : pyval) : Prop :=
  exists j cj w0 n1 w1,
    nth_error file j = Some cj /\ is_blank cj = false /\
    __build_element__ (fuel_for file) file j w0 = Ok (e, n1, w1).

(** [child] is what a call of the element builder at some non-blank line
    after [i], deeper than [indent], returns. *)
Definition built_below (file : list string) (i indent : nat) (child : pyval)
  : Prop :=
  exists j cj w0 n1 w1,
    i < j /\ nth_error file j = Some cj /\ is_blank cj = false /\
    indent < __count_indents__ cj /\
    __build_element__ (fuel_for file) file j w0 = Ok (child, n1, w1).

(** The element built at line [j] is a child of the Command Node built at
    line [i], both calls starting from the warnings [w]. *)
Definition child_at (file : list string) (i j : nat) (w : warnings) : Prop :=
  exists child n1 w1 text children n w',
    __build_element__ (fuel_for file) file j w = Ok (child, n1, w1) /\
    __build_element__ (fuel_for file) file i w
    = Ok (PyNode text children, n, w') /\
    In child children.

(** The same, more precisely: it is the first child. *)
Definition first_child_at (file : list string) (i j : nat) (w : warnings)
  : Prop :=
  exists child n1 w1 text rest n w',
    __build_element__ (fuel_for file) file j w = Ok (child, n1, w1) /\
    __build_element__ (fuel_for file) file i w
    = Ok (PyNode text (child :: rest), n, w').

(** The second half of C5 as it is written: the first non-blank line after
    a non-blank line [i], when it is deeper than line [i], becomes a direct
    child of the element built at line [i]. *)
Definition deeper_line_is_child (file : list string) (i j : nat) : Prop :=
  forall c cj w,
    nth_error file i = Some c -> is_blank c = false ->
    next_nonblank file i j ->
    nth_error file j = Some cj ->
    __count_indents__ c < __count_indents__ cj ->
    child_at file i j w.

(** ** Example inputs *)

Definition T (s : string) : string := String tab s.

Definition example_file : list string :=
  [ "execute if a";
    T "execute if b";
    T (T "run cmd1");
    T (T "run cmd2");
    T "if c";
    T (T "run cmd3") ].

Definition example_tree : pyval :=
  PyNode "execute if a"
    [ PyNode "execute if b" [PyNode "run cmd1" []; PyNode "run cmd2" []];
      PyNode "if c" [PyNode "run cmd3" []] ].

Definition comment_file : list string := ["# c"; T "x"; "y"].

Definition spaced_example_file : list string :=
  [ "execute if a"; T "execute if b"; T (T "run cmd1") ]
  ++ [ ""; T (T "  ") ]
  ++ [ T (T "run cmd2"); T "if c"; T (T "run cmd3") ].

(** * Part II, continued: the rest of the source, and its vocabulary *)

(** ** [to_str] *)

(** ["\t"*n]. *)
Fixpoint tabs (n : nat) : string :=
  match n with
  | 0 => EmptyString
  | S n' => String tab (tabs n')
  end.

(** [self.to_str(n)]: a [marker] returns its text; a [node] returns its
    text followed, for each child, by a newline, [n] tabs and the child's
    [to_str(n+1)]. [None] and [str] have no such method. *)
Fixpoint to_str (self : pyval) (n : nat) : result string :=
  match self with
  | PyMarker s => Ok s
  | PyNode s children =>
      (fix for_child_str (cs : list pyval) (ret_str : string)
         : result string :=
         match cs with
         | [] => Ok ret_str
         | child :: cs' =>
             sub <- to_str child (n + 1) ;;
             for_child_str cs' (ret_str ++ (newline ++ tabs n ++ sub))%string
         end) children s
  | PyNone | PyStr _ => Raise AttributeError
  end.

(** The loop of [node.to_str], unfolded. *)
Fixpoint for_child_str (n : nat) (cs : list pyval) (ret_str : string)
  {struct cs} : result string :=
  match cs with
  | [] => Ok ret_str
  | child :: cs' =>
      sub <- to_str child (n + 1) ;;
      for_child_str n cs' (ret_str ++ (newline ++ tabs n ++ sub))%string
  end.

(** ** [compile_file]: splitting the text into lines *)

(** [in_text.split("\n")]. *)
Fixpoint split_newline (s : string) : list string :=
  match s with
  | EmptyString => [EmptyString]
  | String c rest =>
      if Ascii.eqb c "010"%char then EmptyString :: split_newline rest
      else
        match split_newline rest with
        | piece :: pieces => String c piece :: pieces
        | [] => [String c EmptyString]
        end
  end.

(** ** The builder on the lines that are left

    The relations of the builder again, with the lines from the cursor on
    in place of the file and the cursor: [sbuilds rest w e rest' w'] reads
    as [builds], for the call at the first line of [rest], returning with
    the cursor at the first line of [rest']. *)

Inductive sbuilds
  : list string -> warnings -> pyval -> list string -> warnings -> Prop :=
| sbuilds_blank c rest w :
    is_blank c = true ->
    sbuilds (c :: rest) w PyNone (c :: rest) w
| sbuilds_elem c rest w e rest' w' :
    is_blank c = false ->
    sloops (__count_indents__ c) (new_element c) rest w e rest' w' ->
    sbuilds (c :: rest) w e rest' w'
with sloops
  : nat -> pyval -> list string -> warnings -> pyval -> list string ->
    warnings -> Prop :=
| sloops_end indent cur w :
    sloops indent cur [] w cur [] w
| sloops_skip indent cur c rest w e rest' w' :
    is_blank c = true ->
    sloops indent cur rest w e rest' w' ->
    sloops indent cur (c :: rest) w e rest' w'
| sloops_child indent cur c rest w child rest1 w1 cur2 w2 e rest' w' :
    is_blank c = false ->
    indent < __count_indents__ c ->
    sbuilds (c :: rest) w child rest1 w1 ->
    add_child cur child w1 = Ok (cur2, w2) ->
    sloops indent cur2 rest1 w2 e rest' w' ->
    sloops indent cur (c :: rest) w e rest' w'
| sloops_break indent cur c rest w :
    is_blank c = false ->
    ~ indent < __count_indents__ c ->
    sloops indent cur (c :: rest) w cur (c :: rest) w.

Scheme sbuilds_mut := Induction for sbuilds Sort Prop
  with sloops_mut := Induction for sloops Sort Prop.
Combined Scheme sbuilds_sloops_ind from sbuilds_mut, sloops_mut.

Inductive sroots
  : list string -> list pyval -> warnings -> list pyval -> warnings -> Prop :=
| sroots_end tree_list w :
    sroots [] tree_list w tree_list w
| sroots_skip c rest tree_list w trees w' :
    is_blank c = true ->
    sroots rest tree_list w trees w' ->
    sroots (c :: rest) tree_list w trees w'
| sroots_elem c rest tree_list w next_tree rest1 w1 trees w' :
    is_blank c = false ->
    sbuilds (c :: rest) w next_tree rest1 w1 ->
    sroots rest1 (tree_list ++ [next_tree]) w1 trees w' ->
    sroots (c :: rest) tree_list w trees w'.

(** ** Warnings *)

(** No comment line from [from] up to [upto] has a deeper line right
    below it. *)
Definition quiet_between (file : list string) (from upto : nat) : Prop :=
  forall i, from <= i < upto -> ~ comment_above_deeper_line file i.

(** ** What a tree compiles to *)

(** One line of output before the inherited prefix is put in front: the
    text of a Marker, or the texts of the Command Nodes on the way from a
    node of the tree down to a node without children. *)
Inductive out_line : Type :=
| comment_line (text : string)
| command_line (path : list string).

Definition under (text : string) (l : out_line) : out_line :=
  match l with
  | comment_line m => comment_line m
  | command_line path => command_line (text :: path)
  end.

Fixpoint flatten (v : pyval) : list out_line :=
  match v with
  | PyMarker s => [comment_line s]
  | PyNode s [] => [command_line [s]]
  | PyNode s children => map (under s) (flat_map flatten children)
  | PyNone | PyStr _ => []
  end.

(** The texts of a path, each followed by one space. *)
Fixpoint join_path (path : list string) : string :=
  match path with
  | [] => EmptyString
  | s :: rest => (s ++ " " ++ join_path rest)%string
  end.

Definition render (prefix : string) (l : out_line) : string :=
  match l with
  | comment_line m => m
  | command_line path => (prefix ++ join_path path)%string
  end.

(** ** Texts without a newline, trimmed texts, canonical trees *)

Fixpoint no_newline (s : string) : bool :=
  match s with
  | EmptyString => true
  | String c rest => negb (Ascii.eqb c "010"%char) && no_newline rest
  end.

(** [s.strip() == s]. *)
Definition trimmed (s : string) : bool := String.eqb (strip s) s.

(** A tree as the builder makes them from lines without a newline: the
    text of a Marker is trimmed and starts with [#]; the text of a Command
    Node is trimmed, not empty, and does not start with [#]; no text
    holds a newline. *)
Fixpoint canonical (v : pyval) : bool :=
  match v with
  | PyMarker s => trimmed s && no_newline s && startswith s "#"
  | PyNode s children =>
      trimmed s && no_newline s && negb (len s =? 0)
      && negb (startswith s "#") && forallb canonical children
  | PyNone | PyStr _ => false
  end.

(** The first character is there, is not whitespace and is not [#]. *)
Definition head_ok (s : string) : bool :=
  match s with
  | EmptyString => false
  | String c _ => negb (isspace c) && negb (Ascii.eqb c "#"%char)
  end.

(** A line that the builder turns into a root without children, and that
    this root compiles back to. *)
Definition flat_line (l : string) : Prop :=
  __count_indents__ l = 0 /\ is_blank l = false /\ no_newline l = true /\
  compile (new_element l) "" = Ok [l].

(** ** The lines of a tree *)

(** The text of a [marker] or [node] object. *)
Definition text_of (v : pyval) : string :=
  match v with
  | PyMarker s | PyNode s _ => s
  | PyNone | PyStr _ => EmptyString
  end.

(** The lines that [to_str] writes for a tree whose top is indented by
    [depth] tabs: the text of each node behind as many tabs as it has
    ancestors and [depth] more, parents before children. *)
Fixpoint tree_lines (v : pyval) (depth : nat) : list string :=
  match v with
  | PyMarker s => [(tabs depth ++ s)%string]
  | PyNode s children =>
      (tabs depth ++ s)%string
      :: flat_map (fun child => tree_lines child (depth + 1)) children
  | PyNone | PyStr _ => []
  end.

(** Each line behind a newline. *)
Fixpoint lines_text (ls : list string) : string :=
  match ls with
  | [] => EmptyString
  | l :: rest => (newline ++ l ++ lines_text rest)%string
  end.

(** The lines [post] after a subtree at depth [depth] end it: there is
    none, or the first is not blank and not deeper than [depth]. *)
Definition stops (depth : nat) (post : list string) : Prop :=
  post = [] \/
  exists c rest, post = c :: rest /\ is_blank c = false /\
                 __count_indents__ c <= depth.

(** ** [main]: the checks of the arguments and of the config file, and
    the loops over the files and the directories

    The lists of [argparse] and of the JSON config file are lists of
    strings; a key of the config file that is absent is [None]. [exit(1)]
    after a [print] is [Exits 1] with the text printed. A call of
    [compile_file] is taken to return; the loop over the files is modelled
    by the calls it makes and by how it ends, and of the loop over the
    directories only the two reads of [config['dirs']] are kept. *)

Inductive run (A : Type) : Type :=
| Returns (a : A)
| Exits (status : nat) (printed : string)
| Raises (e : exn).

Arguments Returns {A} a.
Arguments Exits {A} status printed.
Arguments Raises {A} e.



(** The config dictionary, as far as the loops read it. *)
Record config : Type := {
  ifiles : list string;
  ofiles : list string;
  dirs : list string
}.

(** The dictionary loaded from the config file. *)
Record loaded_config : Type := {
  loaded_ifiles : option (list string);
  loaded_ofiles : option (list string);
  loaded_dirs : option (list string)
}.

Definition setdefault (value : option (list string)) : list string :=
  match value with
  | Some l => l
  | None => []
  end.

(** The verification of the loaded config, and the three [setdefault]. *)
Definition verify_config (loaded : loaded_config) : run config :=
  let files_checked : run unit :=
    match loaded_ifiles loaded with
    | Some i =>
        match loaded_ofiles loaded with
        | Some o =>
            if negb (length i =? length o)
            then Exits 1 "ERROR: Number of input files must match output files."
            else Returns tt
        | None =>
            Exits 1 "ERROR: Config file must provide both ifiles and ofiles."
        end
    | None =>
        match loaded_ofiles loaded with
        | Some _ =>
            Exits 1 "ERROR: Config file must provide both ifiles and ofiles."
        | None => Returns tt
        end
    end in
  match files_checked with
  | Returns _ =>
      if match loaded_dirs loaded with
         | Some d => length d mod 2 =? 1
         | None => false
         end
      then Exits 1 "ERROR: Dirs in config file must be pairs of directories."
      else Returns {| ifiles := setdefault (loaded_ifiles loaded);
                      ofiles := setdefault (loaded_ofiles loaded);
                      dirs := setdefault (loaded_dirs loaded) |}
  | Exits status printed => Exits status printed
  | Raises e => Raises e
  end.

(** [for i in range(len(config["ifiles"]))]: the pairs given to
    [compile_file] so far, and how the loop ends. *)
Fixpoint file_loop_from (ifiles ofiles : list string) (range : list nat)
  (calls : list (string * string)) : list (string * string) * run unit :=
  match range with
  | [] => (calls, Returns tt)
  | i :: range' =>
      match nth_error ifiles i with
      | None => (calls, Raises IndexError)
      | Some in_file =>
          match nth_error ofiles i with
          | None => (calls, Raises IndexError)
          | Some out_file =>
              file_loop_from ifiles ofiles range' (calls ++ [(in_file, out_file)])
          end
      end
  end.

Definition file_loop (c : config) : list (string * string) * run unit :=
  file_loop_from (ifiles c) (ofiles c) (seq 0 (length (ifiles c))) [].

(** [range(0, n, 2)]. *)
Definition range_by_two (n : nat) : list nat :=
  map (fun k => 2 * k) (seq 0 ((n + 1) / 2)).

(** [for i in range(0, len(config['dirs']), 2)]: the pairs
    [(input_dir, output_dir)] read so far, and how the loop ends. *)
Fixpoint dirs_loop_from (dirs : list string) (range : list nat)
  (pairs : list (string * string)) : list (string * string) * run unit :=
  match range with
  | [] => (pairs, Returns tt)
  | i :: range' =>
      match nth_error dirs i with
      | None => (pairs, Raises IndexError)
      | Some input_dir =>
          match nth_error dirs (i + 1) with
          | None => (pairs, Raises IndexError)
          | Some output_dir =>
              dirs_loop_from dirs range' (pairs ++ [(input_dir, output_dir)])
          end
      end
  end.

Definition dirs_loop (c : config) : list (string * string) * run unit :=
  dirs_loop_from (dirs c) (range_by_two (length (dirs c))) [].

(** The elements of a list two by two. *)
Fixpoint pairs_of (l : list string) : list (string * string) :=
  match l with
  | a :: b :: rest => (a, b) :: pairs_of rest
  | _ => []
  end.

(** ** The lines below a comment *)

(** Every line of [block] is blank or strictly deeper than the line [c]. *)
Definition below (c : string) (block : list string) : Prop :=
  Forall (fun l => is_blank l = true \/
                   __count_indents__ c < __count_indents__ l) block.

(** [l'] is [l] without the lines of [block] below the comment line [c]
    that is followed by [post]; or both are the same lines of [post]. *)
Definition without_block (c : string) (block post : list string)
  (l l' : list string) : Prop :=
  (exists pre, l = pre ++ c :: block ++ post /\ l' = pre ++ c :: post) \/
  (l' = l /\ exists k, l = skipn k post).

(** ** Trimming, said without [strip] *)

(** Every character of [s] is whitespace. *)
Definition all_space (s : string) : Prop :=
  string_forall (fun c => isspace c = true) s.

(** The first character of [s] is there and is not whitespace. *)
Definition starts_nonspace (s : string) : Prop :=
  exists c rest, s = String c rest /\ isspace c = false.

(** The last character of [s] is there and is not whitespace. *)
Definition ends_nonspace (s : string) : Prop :=
  exists init c, s = (init ++ String c EmptyString)%string /\ isspace c = false.

(** [t] is [line] trimmed: [line] is [t] between two runs of whitespace,
    and [t] is empty or begins and ends with a character that is not
    whitespace. *)
Definition trimming_of (line t : string) : Prop :=
  exists lead trail,
    line = (lead ++ t ++ trail)%string /\
    all_space lead /\ all_space trail /\
    (t = EmptyString \/ (starts_nonspace t /\ ends_nonspace t)).

(** Lines of the three kinds, with whitespace on both sides. *)
Definition classifier_file : list string :=
  [ String tab "  # note  "; String tab "  "; String tab (String tab "run cmd1 ") ].

(** * Part III: lemmas and theorems *)

(** ** The embedding at work *)

Example strip_both_ends : strip (T "  run cmd1  ") = "run cmd1".
Proof. reflexivity. Qed.

Example strip_only_whitespace : strip (T (T "  ")) = "".
Proof. reflexivity. Qed.

Example count_indents_mixed : __count_indents__ (T "  x") = 3.
Proof. reflexivity. Qed.

Example count_indents_stops : __count_indents__ (T "x  ") = 1.
Proof. reflexivity. Qed.

Example build_example_file : build_tree example_file = Ok ([example_tree], []).
Proof. vm_compute. reflexivity. Qed.

Example build_comment_file :
  build_tree comment_file = Ok ([PyMarker "# c"; PyNode "y" []], [warn_text]).
Proof. vm_compute. reflexivity. Qed.

Example build_element_out_of_range :
  __build_element__ 5 ["a"] 1 [] = Raise IndexError.
Proof. reflexivity. Qed.

Example compile_none_raises : compile PyNone "" = Raise AttributeError.
Proof. reflexivity. Qed.

(** ** Whitespace and trimming *)

Lemma rstrip_empty_iff (s : string) : rstrip s = "" <-> has_nonspace s = false.
Proof.
  induction s as [|c rest IH]; simpl; [tauto|].
  destruct (rstrip rest) eqn:E.
  - destruct (isspace c); simpl.
    + tauto.
    + split; discriminate.
  - split; [discriminate|].
    intros H. apply orb_false_iff in H. destruct H as [_ H].
    apply IH in H. discriminate.
Qed.

Lemma has_nonspace_lstrip (s : string) : has_nonspace (lstrip s) = has_nonspace s.
Proof.
  induction s as [|c rest IH]; simpl; [reflexivity|].
  destruct (isspace c) eqn:E; simpl; [assumption|].
  rewrite E. reflexivity.
Qed.

Lemma has_nonspace_rstrip (s : string) : has_nonspace (rstrip s) = has_nonspace s.
Proof.
  induction s as [|c rest IH]; simpl; [reflexivity|].
  destruct (rstrip rest) eqn:E.
  - simpl in IH. rewrite <- IH.
    destruct (isspace c) eqn:Ec; simpl; rewrite ?Ec; reflexivity.
  - change (has_nonspace (String c (String a s))) with
      (negb (isspace c) || has_nonspace (String a s)).
    rewrite IH. reflexivity.
Qed.

Lemma has_nonspace_strip (s : string) : has_nonspace (strip s) = has_nonspace s.
Proof. unfold strip. rewrite has_nonspace_rstrip. apply has_nonspace_lstrip. Qed.

Lemma has_nonspace_app (a b : string) :
  has_nonspace (a ++ b) = has_nonspace a || has_nonspace b.
Proof.
  induction a as [|c rest IH]; simpl; [reflexivity|].
  rewrite IH. apply orb_assoc.
Qed.

Lemma is_blank_spec (command : string) :
  is_blank command = negb (has_nonspace command).
Proof.
  unfold is_blank, len.
  destruct (has_nonspace command) eqn:E; simpl.
  - rewrite <- has_nonspace_strip in E.
    destruct (strip command); [discriminate|reflexivity].
  - rewrite <- has_nonspace_lstrip in E. apply rstrip_empty_iff in E.
    unfold strip. rewrite E. reflexivity.
Qed.

Lemma is_blank_strip_empty (command : string) :
  is_blank command = true <-> strip command = "".
Proof.
  unfold is_blank, len. destruct (strip command); simpl; split;
    congruence.
Qed.

(** A trimmed string does not start with whitespace. *)
Lemma lstrip_head (s : string) c rest :
  lstrip s = String c rest -> isspace c = false.
Proof.
  induction s as [|d s' IH]; simpl; [discriminate|].
  destruct (isspace d) eqn:E; [assumption|].
  intros H. injection H as -> _. assumption.
Qed.

Lemma rstrip_head (s : string) c rest :
  rstrip s = String c rest -> exists rest', s = String c rest'.
Proof.
  destruct s as [|d s']; simpl; [discriminate|].
  destruct (rstrip s'); [destruct (isspace d)|]; intros H;
    try discriminate; injection H as -> _; eauto.
Qed.

Lemma strip_head (s : string) c rest :
  strip s = String c rest -> isspace c = false.
Proof.
  unfold strip. intros H. apply rstrip_head in H. destruct H as [r H].
  eapply lstrip_head; eassumption.
Qed.

(** ** The line classifier *)

Lemma indent_char_test (c : ascii) :
  existsb (Ascii.eqb c) indent_chars = true <-> is_indent_char c.
Proof.
  unfold indent_chars, is_indent_char. simpl.
  rewrite !orb_true_iff, !Ascii.eqb_eq. intuition discriminate.
Qed.

Lemma count_indents_loop_acc (s : string) (k : nat) :
  count_indents_loop s k = k + count_indents_loop s 0.
Proof.
  revert k. induction s as [|c rest IH]; intros k;
    cbn [count_indents_loop]; [lia|].
  destruct (existsb (Ascii.eqb c) indent_chars); [|lia].
  rewrite (IH (k + 1)), (IH (0 + 1)). lia.
Qed.

Lemma count_indents_split (line : string) :
  exists run rest,
    line = (run ++ rest)%string /\
    __count_indents__ line = String.length run /\
    string_forall is_indent_char run /\
    (rest = "" \/ exists c rest', rest = String c rest' /\ ~ is_indent_char c).
Proof.
  unfold __count_indents__.
  induction line as [|c line IH]; cbn [count_indents_loop].
  - exists "", "". simpl. auto.
  - destruct (existsb (Ascii.eqb c) indent_chars) eqn:E.
    + destruct IH as (run & rest & Hl & Hn & Hall & Hrest).
      exists (String c run), rest. simpl.
      rewrite count_indents_loop_acc, Hn. rewrite <- Hl.
      apply indent_char_test in E. auto.
    + exists "", (String c line). simpl. repeat split; auto.
      right. exists c, line. split; [reflexivity|].
      intros H. apply indent_char_test in H. congruence.
Qed.

Lemma startswith_hash (s : string) :
  startswith s "#" = match s with
                     | String c _ => Ascii.eqb c "#"%char
                     | EmptyString => false
                     end.
Proof.
  unfold startswith. destruct s as [|c s]; cbn [prefix]; [reflexivity|].
  destruct (ascii_dec "#" c) as [<-|N].
  - destruct s; reflexivity.
  - symmetry. apply Ascii.eqb_neq. congruence.
Qed.

Lemma classify_blank (line : string) :
  classify line = kind_blank <-> is_blank line = true.
Proof.
  rewrite is_blank_strip_empty. unfold classify.
  destruct (strip line) as [|c r]; [tauto|].
  destruct (Ascii.eqb c "#"); split; discriminate.
Qed.

Lemma classify_comment (line : string) :
  classify line = kind_comment <->
  is_blank line = false /\ startswith (strip line) "#" = true.
Proof.
  rewrite startswith_hash. unfold classify, is_blank, len.
  destruct (strip line) as [|c r]; simpl.
  - split; [discriminate|intros [H _]; discriminate].
  - destruct (Ascii.eqb c "#"); split; try discriminate; auto.
    intros [_ H]; discriminate.
Qed.

Lemma classify_command (line : string) :
  classify line = kind_command <->
  is_blank line = false /\ startswith (strip line) "#" = false.
Proof.
  rewrite startswith_hash. unfold classify, is_blank, len.
  destruct (strip line) as [|c r]; simpl.
  - split; [discriminate|intros [H _]; discriminate].
  - destruct (Ascii.eqb c "#"); split; try discriminate; auto.
    intros [_ H]; discriminate.
Qed.

(** ** The builder: functions and relations *)

(** The equations of the three recursive functions. *)

Lemma build_element_S fuel file line w :
  __build_element__ (S fuel) file line w =
  match nth_error file line with
  | None => Raise IndexError
  | Some command =>
      if is_blank command then Ok (PyNone, line, w)
      else children_loop fuel file (__count_indents__ command)
             (new_element command) (line + 1) w
  end.
Proof. reflexivity. Qed.

Lemma children_loop_S fuel file indent cur m w :
  children_loop (S fuel) file indent cur m w =
  if m =? length file then Ok (cur, m, w)
  else
    match nth_error file m with
    | None => Raise IndexError
    | Some next_command =>
        if is_blank next_command
        then children_loop fuel file indent cur (m + 1) w
        else
          if indent <? __count_indents__ next_command then
            '(next_child, next_line, w) <- __build_element__ fuel file m w ;;
            '(cur, w) <- add_child cur next_child w ;;
            children_loop fuel file indent cur next_line w
          else Ok (cur, m, w)
    end.
Proof. reflexivity. Qed.

Lemma build_tree_loop_S fuel file line tree_list w :
  build_tree_loop (S fuel) file line tree_list w =
  if line <? length file then
    match nth_error file line with
    | None => Raise IndexError
    | Some command =>
        if is_blank command
        then build_tree_loop fuel file (line + 1) tree_list w
        else
          '(next_tree, line, w) <- __build_element__ fuel file line w ;;
          build_tree_loop fuel file line (tree_list ++ [next_tree]) w
    end
  else Ok (tree_list, w).
Proof. reflexivity. Qed.

Lemma bind_Ok {A B : Type} (m : result A) (k : A -> result B) (b : B) :
  bind m k = Ok b -> exists a, m = Ok a /\ k a = Ok b.
Proof. destruct m; simpl; intros H; try discriminate. eauto. Qed.

(** *** The functions satisfy the relations *)

Lemma build_sound (file : list string) (fuel : nat) :
  (forall line w e n w',
      __build_element__ fuel file line w = Ok (e, n, w') ->
      builds file line w e n w') /\
  (forall indent cur m w e n w',
      children_loop fuel file indent cur m w = Ok (e, n, w') ->
      loops file indent cur m w e n w').
Proof.
  induction fuel as [|fuel [IHb IHl]]; [split; intros; discriminate|].
  split.
  - intros line w e n w'. rewrite build_element_S.
    destruct (nth_error file line) as [c|] eqn:Ec; [|discriminate].
    destruct (is_blank c) eqn:Eb.
    + intros H. injection H as <- <- <-. eapply builds_blank; eassumption.
    + intros H. eapply builds_elem; eauto.
  - intros indent cur m w e n w'. rewrite children_loop_S.
    destruct (m =? length file) eqn:Em.
    { apply Nat.eqb_eq in Em. subst m.
      intros H. injection H as <- <- <-. apply loops_end. }
    apply Nat.eqb_neq in Em.
    destruct (nth_error file m) as [c|] eqn:Ec; [|discriminate].
    destruct (is_blank c) eqn:Eb.
    { intros H. eapply loops_skip; eauto. }
    destruct (indent <? __count_indents__ c) eqn:Ei.
    + apply Nat.ltb_lt in Ei. intros H.
      apply bind_Ok in H. destruct H as ([[child n1] w1] & Hb & H).
      apply bind_Ok in H. destruct H as ([cur2 w2] & Ha & H).
      eapply loops_child; eauto.
    + apply Nat.ltb_ge in Ei. intros H. injection H as <- <- <-.
      eapply loops_break; eauto. lia.
Qed.

Lemma roots_sound (file : list string) (fuel : nat) :
  forall line tree_list w trees w',
    build_tree_loop fuel file line tree_list w = Ok (trees, w') ->
    roots file line tree_list w trees w'.
Proof.
  induction fuel as [|fuel IH]; [intros; discriminate|].
  intros line tree_list w trees w'. rewrite build_tree_loop_S.
  destruct (line <? length file) eqn:El.
  - apply Nat.ltb_lt in El.
    destruct (nth_error file line) as [c|] eqn:Ec; [|discriminate].
    destruct (is_blank c) eqn:Eb.
    + intros H. eapply roots_skip; eauto.
    + intros H. apply bind_Ok in H. destruct H as ([[e n] w1] & Hb & H).
      eapply roots_elem; eauto. eapply build_sound; eassumption.
  - apply Nat.ltb_ge in El. intros H. injection H as <- <-.
    apply roots_end. lia.
Qed.

(** *** Termination: enough fuel gives a result *)

Lemma new_element_object (c : string) : is_object (new_element c) = true.
Proof. unfold new_element. destruct (startswith (strip c) "#"); reflexivity. Qed.

Lemma add_child_object (cur child : pyval) (w : warnings) :
  is_object cur = true ->
  exists cur2 w2, add_child cur child w = Ok (cur2, w2) /\ is_object cur2 = true.
Proof. destruct cur; simpl; try discriminate; eauto. Qed.

Lemma build_total (file : list string) (fuel : nat) :
  (forall line w,
      line < length file ->
      2 * (length file - line) <= fuel ->
      exists e n w',
        __build_element__ fuel file line w = Ok (e, n, w') /\
        n <= length file /\
        (forall c, nth_error file line = Some c -> is_blank c = false ->
                   line < n /\ is_object e = true)) /\
  (forall indent cur m w,
      m <= length file ->
      2 * (length file - m) + 1 <= fuel ->
      is_object cur = true ->
      exists e n w',
        children_loop fuel file indent cur m w = Ok (e, n, w') /\
        m <= n <= length file /\ is_object e = true).
Proof.
  induction fuel as [|fuel [IHb IHl]]; [split; intros; lia|].
  split.
  - intros line w Hlt Hfuel. rewrite build_element_S.
    destruct (nth_error file line) as [c|] eqn:Ec;
      [|apply nth_error_None in Ec; lia].
    destruct (is_blank c) eqn:Eb.
    + exists PyNone, line, w. split; [reflexivity|]. split; [lia|].
      intros c' [= <-]. congruence.
    + destruct (IHl (__count_indents__ c) (new_element c) (line + 1) w)
        as (e & n & w' & Hrun & Hn & Ho);
        [lia|lia|apply new_element_object|].
      exists e, n, w'. split; [assumption|]. split; [lia|].
      intros _ _ _. split; [lia|assumption].
  - intros indent cur m w Hle Hfuel Hobj. rewrite children_loop_S.
    destruct (m =? length file) eqn:Em.
    { apply Nat.eqb_eq in Em. exists cur, m, w. repeat split; auto; lia. }
    apply Nat.eqb_neq in Em.
    destruct (nth_error file m) as [c|] eqn:Ec;
      [|apply nth_error_None in Ec; lia].
    destruct (is_blank c) eqn:Eb.
    { destruct (IHl indent cur (m + 1) w) as (e & n & w' & Hrun & Hn & Ho);
        [lia|lia|assumption|].
      exists e, n, w'. repeat split; auto; lia. }
    destruct (indent <? __count_indents__ c).
    + destruct (IHb m w) as (child & n1 & w1 & Hrun & Hn1 & Hadv); [lia|lia|].
      destruct (Hadv c Ec Eb) as [Hlt _].
      destruct (add_child_object cur child w1 Hobj) as (cur2 & w2 & Ha & Ho2).
      destruct (IHl indent cur2 n1 w2) as (e & n & w' & Hrun' & Hn & Ho);
        [lia|lia|assumption|].
      exists e, n, w'. rewrite Hrun. cbn [bind]. rewrite Ha. cbn [bind].
      repeat split; auto; lia.
    + exists cur, m, w. repeat split; auto; lia.
Qed.

Lemma roots_total (file : list string) (fuel : nat) :
  forall line tree_list w,
    2 * (length file - line) + 2 <= fuel ->
    exists trees w', build_tree_loop fuel file line tree_list w = Ok (trees, w').
Proof.
  induction fuel as [|fuel IH]; [intros; lia|].
  intros line tree_list w Hfuel. rewrite build_tree_loop_S.
  destruct (line <? length file) eqn:El; [|eauto].
  apply Nat.ltb_lt in El.
  destruct (nth_error file line) as [c|] eqn:Ec;
    [|apply nth_error_None in Ec; lia].
  destruct (is_blank c) eqn:Eb.
  - apply IH. lia.
  - destruct (proj1 (build_total file fuel) line w)
      as (e & n & w1 & Hrun & Hn & Hadv); [lia|lia|].
    destruct (Hadv c Ec Eb) as [Hlt _].
    rewrite Hrun. cbn [bind]. apply IH. lia.
Qed.

(** *** The relations are functional *)

Lemma add_child_marker (s : string) (child : pyval) (w : warnings) :
  add_child (PyMarker s) child w = Ok (PyMarker s, w ++ [warn_text]).
Proof. reflexivity. Qed.

Lemma builds_loops_functional (file : list string) :
  (forall line w e n w',
      builds file line w e n w' ->
      forall e2 n2 w2, builds file line w e2 n2 w2 ->
                       e2 = e /\ n2 = n /\ w2 = w') /\
  (forall indent cur m w e n w',
      loops file indent cur m w e n w' ->
      forall e2 n2 w2, loops file indent cur m w e2 n2 w2 ->
                       e2 = e /\ n2 = n /\ w2 = w').
Proof.
  apply builds_loops_ind.
  - intros line w c Hc Hb e2 n2 w2 H2.
    inversion H2; subst; [auto|congruence].
  - intros line w c e n w' Hc Hb Hl IH e2 n2 w2 H2.
    inversion H2; subst; [congruence|].
    assert (c0 = c) by congruence. subst c0. auto.
  - intros indent cur w e2 n2 w2 H2.
    inversion H2; subst; auto; congruence.
  - intros indent cur m w c e n w' Hm Hc Hb Hl IH e2 n2 w2 H2.
    inversion H2; subst; try congruence.
    apply IH. assumption.
  - intros indent cur m w c child n1 w1 cur2 w2 e n w'
      Hm Hc Hb Hi Hbuild IHb Ha Hl IHl e2 n2 w3 H2.
    inversion H2; subst; try congruence.
    match goal with
    | H : builds file m w ?a ?b ?d |- _ =>
        destruct (IHb _ _ _ H) as (-> & -> & ->)
    end.
    match goal with
    | H : add_child cur child w1 = Ok (?a, ?b),
      H' : loops file indent ?a n1 ?b _ _ _ |- _ =>
        apply IHl; congruence
    end.
  - intros indent cur m w c Hm Hc Hb Hi e2 n2 w2 H2.
    inversion H2; subst; auto; congruence.
Qed.

Lemma roots_functional (file : list string) :
  forall line tree_list w trees w',
    roots file line tree_list w trees w' ->
    forall trees2 w2, roots file line tree_list w trees2 w2 ->
                      trees2 = trees /\ w2 = w'.
Proof.
  induction 1 as [line tl w Hge
                 |line tl w c trees w' Hlt Hc Hb Hr IH
                 |line tl w c e n w1 trees w' Hlt Hc Hb Hbuild Hr IH];
    intros trees2 w2 H2; inversion H2; subst; auto; try contradiction;
    try congruence.
  match goal with
  | H : builds file line w _ _ _ |- _ =>
      destruct (proj1 (builds_loops_functional file) _ _ _ _ _ Hbuild _ _ _ H)
        as (-> & -> & ->)
  end.
  apply IH. assumption.
Qed.

(** With the fuel that the relation's starting line calls for, the
    functions return what the relations say. *)
Lemma builds_run (file : list string) line w e n w' :
  builds file line w e n w' ->
  forall fuel, 2 * (length file - line) <= fuel ->
               __build_element__ fuel file line w = Ok (e, n, w').
Proof.
  intros Hb fuel Hfuel.
  assert (line < length file) as Hlt.
  { apply nth_error_Some. inversion Hb; congruence. }
  destruct (proj1 (build_total file fuel) line w Hlt Hfuel)
    as (e2 & n2 & w2 & Hrun & _).
  pose proof (proj1 (build_sound file fuel) _ _ _ _ _ Hrun) as Hb2.
  destruct (proj1 (builds_loops_functional file) _ _ _ _ _ Hb _ _ _ Hb2)
    as (-> & -> & ->).
  assumption.
Qed.

Lemma roots_run (file : list string) line tree_list w trees w' :
  roots file line tree_list w trees w' ->
  forall fuel, 2 * (length file - line) + 2 <= fuel ->
               build_tree_loop fuel file line tree_list w = Ok (trees, w').
Proof.
  intros Hr fuel Hfuel.
  destruct (roots_total file fuel line tree_list w Hfuel) as (t2 & w2 & Hrun).
  pose proof (roots_sound file fuel _ _ _ _ _ Hrun) as Hr2.
  destruct (roots_functional file _ _ _ _ _ Hr _ _ Hr2) as [-> ->].
  assumption.
Qed.

Lemma build_tree_roots (file : list string) trees w :
  build_tree file = Ok (trees, w) <-> roots file 0 [] [] trees w.
Proof.
  unfold build_tree, fuel_for. split.
  - apply roots_sound.
  - intros H. eapply roots_run; [eassumption|lia].
Qed.

Lemma build_tree_total (file : list string) :
  exists trees w, build_tree file = Ok (trees, w).
Proof. apply roots_total. unfold fuel_for. lia. Qed.

(** ** The compiler *)

Lemma compile_node (s : string) (children : list pyval) (parent : string) :
  compile (PyNode s children) parent =
  if 0 <? length children
  then for_child (parent ++ s ++ " ") children []
  else Ok [(parent ++ s ++ " ")%string].
Proof.
  cbn [compile]. destruct (0 <? length children); [|reflexivity].
  generalize (@nil string). generalize (parent ++ s ++ " ")%string.
  intros next_str. induction children as [|child cs IH]; intros acc.
  - reflexivity.
  - cbn [for_child]. destruct (compile child next_str); cbn [bind]; auto.
Qed.

Lemma all_nodes_real (P : string -> bool) (v : pyval) :
  all_nodes P v = true -> real v = true.
Proof.
  unfold real. induction v as [| | |s children IH] using pyval_nested_ind;
    cbn [all_nodes]; auto.
  intros H. apply andb_true_iff in H. destruct H as [_ H].
  cbn [andb]. rewrite forallb_forall in *. rewrite Forall_forall in IH.
  auto.
Qed.

Lemma list_sum_cons (a : nat) (l : list nat) :
  list_sum (a :: l) = a + list_sum l.
Proof. reflexivity. Qed.

Lemma for_child_lines (next_str : string) (cs : list pyval) :
  Forall (fun v => forall p, exists l,
              compile v p = Ok l /\ length l = line_count v) cs ->
  forall acc, exists l,
    for_child next_str cs acc = Ok (acc ++ l) /\
    length l = list_sum (map leaf_count cs) + list_sum (map marker_count cs).
Proof.
  induction 1 as [|v cs Hv _ IH]; intros acc; cbn [for_child map];
    rewrite ?list_sum_cons.
  - exists []. rewrite app_nil_r. auto.
  - destruct (Hv next_str) as (l1 & -> & Hl1). cbn [bind].
    destruct (IH (acc ++ l1)) as (l2 & -> & Hl2).
    exists (l1 ++ l2). rewrite app_assoc. split; [reflexivity|].
    rewrite length_app. unfold line_count in Hl1. lia.
Qed.

Lemma compile_lines (v : pyval) :
  real v = true ->
  forall p, exists l, compile v p = Ok l /\ length l = line_count v.
Proof.
  unfold real, line_count.
  induction v as [| | |s children IH] using pyval_nested_ind;
    cbn [all_nodes]; try discriminate.
  - intros _ p. exists [s]. auto.
  - intros Hreal p. cbn [andb] in Hreal. rewrite compile_node.
    destruct children as [|c cs]; [exists [(p ++ s ++ " ")%string]; auto|].
    change (0 <? length (c :: cs)) with true. cbv iota.
    assert (Forall (fun v => forall p, exists l,
                        compile v p = Ok l /\ length l = line_count v)
              (c :: cs)) as Hall.
    { rewrite Forall_forall in *. rewrite forallb_forall in Hreal.
      intros x Hx. apply IH; auto. }
    destruct (for_child_lines (p ++ s ++ " ") (c :: cs) Hall [])
      as (l & Hl & Hlen).
    exists l. split; assumption.
Qed.

Lemma compiled_list_loop_lines (trees : list pyval) :
  forallb real trees = true ->
  forall acc, exists l,
    compiled_list_loop trees acc = Ok (acc ++ l) /\
    length l = list_sum (map leaf_count trees) + list_sum (map marker_count trees).
Proof.
  induction trees as [|t ts IH]; intros Hreal acc;
    cbn [compiled_list_loop map]; rewrite ?list_sum_cons.
  - exists []. rewrite app_nil_r. auto.
  - cbn [forallb] in Hreal. apply andb_true_iff in Hreal.
    destruct Hreal as [Ht Hts].
    destruct (compile_lines t Ht "") as (l1 & -> & Hl1). cbn [bind].
    destruct (IH Hts (acc ++ l1)) as (l2 & -> & Hl2).
    exists (l1 ++ l2). rewrite app_assoc. split; [reflexivity|].
    rewrite length_app. unfold line_count in Hl1. lia.
Qed.

(** ** What the builder builds *)

Section built_nodes.
Variable P : string -> bool.
Hypothesis P_strip : forall c, is_blank c = false -> P (strip c) = true.

Lemma new_element_all_nodes (c : string) :
  is_blank c = false -> all_nodes P (new_element c) = true.
Proof.
  intros Hb. unfold new_element, marker, node.
  destruct (startswith (strip c) "#"); cbn [all_nodes forallb];
    rewrite P_strip by assumption; reflexivity.
Qed.

Lemma add_child_all_nodes cur child w cur2 w2 :
  add_child cur child w = Ok (cur2, w2) ->
  all_nodes P cur = true ->
  all_nodes P child = true ->
  all_nodes P cur2 = true.
Proof.
  destruct cur as [| |s|s children]; cbn [add_child]; try discriminate.
  - intros [= <- <-]. auto.
  - intros [= <- <-]. cbn [all_nodes]. intros Hcur Hchild.
    apply andb_true_iff in Hcur. destruct Hcur as [Hs Hch].
    rewrite Hs, forallb_app, Hch. cbn [andb forallb].
    destruct child; try discriminate; rewrite Hchild; reflexivity.
Qed.

Lemma builds_all_nodes (file : list string) :
  (forall line w e n w',
      builds file line w e n w' ->
      forall c, nth_error file line = Some c -> is_blank c = false ->
                all_nodes P e = true) /\
  (forall indent cur m w e n w',
      loops file indent cur m w e n w' ->
      all_nodes P cur = true -> all_nodes P e = true).
Proof.
  apply builds_loops_ind; auto.
  - intros line w c Hc Hb c' Hc' Hb'. congruence.
  - intros line w c e n w' Hc Hb _ IH c' _ _.
    apply IH. apply new_element_all_nodes. assumption.
  - intros indent cur m w c child n1 w1 cur2 w2 e n w'
      _ Hc Hb _ _ IHb Ha _ IHl Hcur.
    apply IHl. eapply add_child_all_nodes; eauto.
Qed.

Lemma roots_all_nodes (file : list string) line tree_list w trees w' :
  roots file line tree_list w trees w' ->
  forallb (all_nodes P) tree_list = true ->
  forallb (all_nodes P) trees = true.
Proof.
  induction 1 as [| |line tl w c e n w1 trees w' _ Hc Hb Hbuild _ IH]; auto.
  intros Htl. apply IH. rewrite forallb_app, Htl. cbn [forallb andb].
  rewrite (proj1 (builds_all_nodes file) _ _ _ _ _ Hbuild c Hc Hb).
  reflexivity.
Qed.
End built_nodes.

Lemma build_tree_real (file : list string) trees w :
  build_tree file = Ok (trees, w) -> forallb real trees = true.
Proof.
  intros H. apply build_tree_roots in H.
  eapply (roots_all_nodes (fun _ => true)) in H; auto.
Qed.

Lemma strip_has_nonspace (c : string) :
  is_blank c = false -> has_nonspace (strip c) = true.
Proof.
  rewrite is_blank_spec, has_nonspace_strip. destruct (has_nonspace c); auto.
Qed.

Lemma build_tree_texts (file : list string) trees w :
  build_tree file = Ok (trees, w) ->
  forallb (all_nodes has_nonspace) trees = true.
Proof.
  intros H. apply build_tree_roots in H.
  eapply (roots_all_nodes has_nonspace) in H; auto.
  apply strip_has_nonspace.
Qed.

(** ** What trimming does *)

Lemma all_space_iff (s : string) : all_space s <-> has_nonspace s = false.
Proof.
  unfold all_space. induction s as [|c s IH]; cbn [string_forall has_nonspace].
  - tauto.
  - rewrite orb_false_iff, negb_false_iff, IH. tauto.
Qed.

Lemma lstrip_split (s : string) :
  exists lead, s = (lead ++ lstrip s)%string /\ all_space lead.
Proof.
  induction s as [|c s (lead & E & Hl)]; cbn [lstrip].
  - exists "". split; [reflexivity|exact I].
  - destruct (isspace c) eqn:Ec.
    + exists (String c lead). cbn [String.append]. rewrite <- E.
      split; [reflexivity|]. split; assumption.
    + exists "". split; [reflexivity|exact I].
Qed.

Lemma rstrip_split (s : string) :
  exists trail, s = (rstrip s ++ trail)%string /\ all_space trail.
Proof.
  induction s as [|c s (trail & E & Ht)]; cbn [rstrip].
  - exists "". split; [reflexivity|exact I].
  - destruct (rstrip s) as [|a r] eqn:Er.
    + cbn [String.append] in E. subst trail.
      destruct (isspace c) eqn:Ec.
      * exists (String c s). split; [reflexivity|]. split; assumption.
      * exists s. split; [reflexivity|assumption].
    + exists trail. cbn [String.append] in *. rewrite <- E.
      split; [reflexivity|assumption].
Qed.

Lemma rstrip_ends (s : string) : rstrip s <> "" -> ends_nonspace (rstrip s).
Proof.
  induction s as [|c s IH]; cbn [rstrip]; [contradiction|].
  destruct (rstrip s) as [|a r] eqn:Er.
  - destruct (isspace c) eqn:Ec; [contradiction|]. intros _.
    exists "", c. split; [reflexivity|assumption].
  - intros _. destruct IH as (init & c0 & E & Hc0); [discriminate|].
    exists (String c init), c0. cbn [String.append]. rewrite <- E.
    split; [reflexivity|assumption].
Qed.

(** [strip] trims. *)
Lemma strip_trimming (line : string) : trimming_of line (strip line).
Proof.
  destruct (lstrip_split line) as (lead & El & Hlead).
  destruct (rstrip_split (lstrip line)) as (trail & Et & Htrail).
  exists lead, trail. fold (strip line) in Et.
  split; [rewrite <- Et; exact El|]. split; [exact Hlead|].
  split; [exact Htrail|].
  destruct (strip line) as [|c r] eqn:Es; [left; reflexivity|right]. split.
  - exists c, r. split; [reflexivity|]. eapply strip_head. eassumption.
  - rewrite <- Es. unfold strip. apply rstrip_ends.
    fold (strip line). rewrite Es. discriminate.
Qed.

Lemma lstrip_all_space (lead s : string) :
  all_space lead -> lstrip (lead ++ s) = lstrip s.
Proof.
  unfold all_space. induction lead as [|c lead IH]; cbn [string_forall];
    [reflexivity|].
  intros [Hc Hl]. cbn [String.append lstrip]. rewrite Hc. apply IH. exact Hl.
Qed.

Lemma rstrip_all_space (trail : string) : all_space trail -> rstrip trail = "".
Proof.
  intros H. apply rstrip_empty_iff. apply all_space_iff. exact H.
Qed.

Lemma rstrip_app_all_space (s trail : string) :
  all_space trail -> rstrip (s ++ trail) = rstrip s.
Proof.
  intros Ht. induction s as [|c s IH]; cbn [String.append rstrip].
  - apply rstrip_all_space. exact Ht.
  - rewrite IH. reflexivity.
Qed.

Lemma rstrip_ends_id (s : string) : ends_nonspace s -> rstrip s = s.
Proof.
  intros (init & c & -> & Hc).
  induction init as [|a init IH]; cbn [String.append rstrip].
  - rewrite Hc. reflexivity.
  - rewrite IH. destruct init; reflexivity.
Qed.

(** Trimming is what [strip] returns, and nothing else. *)
Lemma trimming_unique (line t : string) :
  trimming_of line t -> t = strip line.
Proof.
  intros (lead & trail & -> & Hlead & Htrail & [->|[Hs He]]).
  - cbn [String.append]. unfold strip. rewrite (lstrip_all_space _ _ Hlead).
    assert (lstrip trail = "") as ->.
    { destruct (lstrip trail) as [|c r] eqn:E; [reflexivity|].
      exfalso. pose proof (has_nonspace_lstrip trail) as H.
      rewrite (proj1 (all_space_iff trail) Htrail), E in H.
      cbn [has_nonspace] in H. rewrite (lstrip_head _ _ _ E) in H.
      discriminate. }
    reflexivity.
  - unfold strip. rewrite (lstrip_all_space _ _ Hlead).
    destruct Hs as (c & r & -> & Hc). cbn [String.append lstrip].
    rewrite Hc. change (String c (r ++ trail)) with (String c r ++ trail)%string.
    rewrite (rstrip_app_all_space _ _ Htrail).
    symmetry. apply rstrip_ends_id. exact He.
Qed.

(** The first character after the leading whitespace decides the kind. *)
Lemma strip_first_char (line : string) c :
  (exists r, strip line = String c r) <->
  (exists lead rest, line = (lead ++ String c rest)%string /\
                     all_space lead /\ isspace c = false).
Proof.
  split.
  - intros (r & Es).
    destruct (lstrip_split line) as (lead & El & Hlead).
    unfold strip in Es. destruct (rstrip_head _ _ _ Es) as (rest & El').
    exists lead, rest. rewrite <- El'. split; [exact El|].
    split; [exact Hlead|]. eapply lstrip_head. eassumption.
  - intros (lead & rest & -> & Hlead & Hc). unfold strip.
    rewrite (lstrip_all_space _ _ Hlead). cbn [lstrip]. rewrite Hc.
    cbn [rstrip]. destruct (rstrip rest); [rewrite Hc|]; eauto.
Qed.

Lemma classify_blank_spec (line : string) :
  classify line = kind_blank <-> all_space line.
Proof.
  rewrite classify_blank, is_blank_spec, negb_true_iff. symmetry.
  apply all_space_iff.
Qed.

Lemma classify_comment_spec (line : string) :
  classify line = kind_comment <->
  exists lead rest, line = (lead ++ String "#" rest)%string /\ all_space lead.
Proof.
  split.
  - intros Hk. unfold classify in Hk.
    destruct (strip line) as [|c r] eqn:Es; [discriminate|].
    destruct (Ascii.eqb c "#") eqn:Ec; [|discriminate].
    apply Ascii.eqb_eq in Ec. subst c.
    destruct (proj1 (strip_first_char line "#") (ex_intro _ r Es))
      as (lead & rest & E & Hl & _). eauto.
  - intros (lead & rest & E & Hl).
    destruct (proj2 (strip_first_char line "#")) as (r & Es).
    { exists lead, rest. repeat split; auto. }
    unfold classify. rewrite Es. reflexivity.
Qed.

Lemma classify_command_spec (line : string) :
  classify line = kind_command <->
  exists lead c rest,
    line = (lead ++ String c rest)%string /\ all_space lead /\
    isspace c = false /\ c <> "#"%char.
Proof.
  split.
  - intros Hk. unfold classify in Hk.
    destruct (strip line) as [|c r] eqn:Es; [discriminate|].
    destruct (Ascii.eqb c "#") eqn:Ec; [discriminate|].
    apply Ascii.eqb_neq in Ec.
    destruct (proj1 (strip_first_char line c) (ex_intro _ r Es))
      as (lead & rest & E & Hl & Hc).
    exists lead, c, rest. auto.
  - intros (lead & c & rest & E & Hl & Hc & Hne).
    destruct (proj2 (strip_first_char line c)) as (r & Es).
    { exists lead, rest. repeat split; auto. }
    unfold classify. rewrite Es.
    apply Ascii.eqb_neq in Hne. rewrite Hne. reflexivity.
Qed.

(** ** Leaves and Markers *)

(** C1. The emission of a Command Node without children, in the code: the
    single line is the inherited prefix, then the node's text, then the
    separator space that [next_str] carries; so the root node [say hi]
    yields the line [say hi ] with a space at its end, and the compiled
    text is that line and a newline. *)
Theorem leaf_emits_prefix_text_and_space :
  (forall (p text : string),
      compile (PyNode text []) p = Ok [(p ++ text ++ " ")%string]) /\
  build_tree ["say hi"] = Ok ([PyNode "say hi" []], []) /\
  compile (PyNode "say hi" []) "" = Ok ["say hi "] /\
  compile (PyNode "say hi" []) "" <> Ok ["say hi"] /\
  compile_tree_list [PyNode "say hi" []] = Ok (String.append "say hi " newline).
Proof.
  split; [reflexivity|]. split; [reflexivity|]. split; [reflexivity|].
  split; [discriminate|reflexivity].
Qed.

Lemma for_child_acc (next_str : string) (cs : list pyval) :
  forall acc l, for_child next_str cs acc = Ok l ->
                exists l', l = acc ++ l'.
Proof.
  induction cs as [|c cs IH]; intros acc l; cbn [for_child].
  - intros [= <-]. exists []. symmetry. apply app_nil_r.
  - intros H. apply bind_Ok in H. destruct H as (l1 & _ & H).
    apply IH in H. destruct H as (l' & ->). exists (l1 ++ l').
    symmetry. apply app_assoc.
Qed.

Lemma for_child_in (next_str : string) (cs : list pyval) (child : pyval) :
  In child cs ->
  forall acc l, for_child next_str cs acc = Ok l ->
                exists lc, compile child next_str = Ok lc /\ incl lc l.
Proof.
  induction cs as [|c cs IH]; [contradiction|].
  intros [->|Hin] acc l; cbn [for_child]; intros H;
    apply bind_Ok in H; destruct H as (l1 & Hc & H).
  - exists l1. split; [assumption|].
    apply for_child_acc in H. destruct H as (l' & ->).
    intros x Hx. apply in_or_app. left. apply in_or_app. right. assumption.
  - eapply IH; eassumption.
Qed.

Lemma marker_line_survives (m : string) (v : pyval) :
  marker_in m v -> forall p l, compile v p = Ok l -> In m l.
Proof.
  induction 1 as [|s children child Hin _ IH]; intros p l.
  - intros [= <-]. left. reflexivity.
  - rewrite compile_node. destruct children as [|c cs]; [contradiction|].
    change (0 <? length (c :: cs)) with true. cbv iota. intros H.
    destruct (for_child_in _ _ _ Hin _ _ H) as (lc & Hc & Hincl).
    apply Hincl. eapply IH. eassumption.
Qed.

(** The loop over the lines below a comment leaves the Marker as it is. *)
Lemma loops_marker (file : list string) indent text m w e n w' :
  loops file indent (PyMarker text) m w e n w' -> e = PyMarker text.
Proof.
  remember (PyMarker text) as cur eqn:Ecur. intros Hl.
  induction Hl; auto.
  subst cur. cbn [add_child] in *.
  match goal with H : Ok _ = Ok _ |- _ => injection H as <- <- end. auto.
Qed.

(** C6. A Marker emits exactly its stored text, whatever the inherited
    prefix; the builder stores the trimmed source line in it, that is the
    line without the whitespace before its first and after its last
    character that is not whitespace; and wherever a Marker sits in a
    tree, the lines compiled from the tree contain its text as it is. *)
Theorem marker_emits_its_text :
  (forall (text p : string), compile (PyMarker text) p = Ok [text]) /\
  (forall file line c w,
      nth_error file line = Some c ->
      classify c = kind_comment ->
      exists n w',
        __build_element__ (fuel_for file) file line w
        = Ok (PyMarker (strip c), n, w') /\
        trimming_of c (strip c) /\
        (forall t, trimming_of c t -> t = strip c) /\
        forall p, compile (PyMarker (strip c)) p = Ok [strip c]) /\
  (forall text tree p lines,
      marker_in text tree -> compile tree p = Ok lines -> In text lines).
Proof.
  split; [reflexivity|]. split.
  - intros file line c w Hc Hk. apply classify_comment in Hk.
    destruct Hk as [Hb Hs].
    assert (line < length file) as Hlt by (apply nth_error_Some; congruence).
    destruct (proj1 (build_total file (fuel_for file)) line w Hlt)
      as (e & n & w' & Hrun & _); [unfold fuel_for; lia|].
    exists n, w'.
    split; [|split; [apply strip_trimming|split;
                       [apply trimming_unique|reflexivity]]].
    rewrite Hrun. repeat f_equal.
    apply build_sound in Hrun.
    inversion Hrun as [? ? c0 Hc0 Hb0|? ? c0 ? ? ? Hc0 Hb0 Hl]; subst;
      [congruence|].
    assert (c0 = c) by congruence. subst c0.
    unfold new_element in Hl. rewrite Hs in Hl.
    apply loops_marker in Hl. assumption.
  - intros text tree p lines Hm Hc. eapply marker_line_survives; eassumption.
Qed.

Lemma marker_emits_its_text_witness :
  nth_error [T "# note  "] 0 = Some (T "# note  ") /\
  classify (T "# note  ") = kind_comment /\
  exists n w',
    __build_element__ (fuel_for [T "# note  "]) [T "# note  "] 0 []
    = Ok (PyMarker "# note", n, w') /\
    trimming_of (T "# note  ") "# note" /\
    compile (PyMarker "# note") "say " = Ok ["# note"].
Proof.
  split; [reflexivity|]. split; [reflexivity|].
  destruct marker_emits_its_text as (_ & H & _).
  destruct (H [T "# note  "] 0 (T "# note  ") [] eq_refl eq_refl)
    as (n & w' & Hrun & Htrim & _ & Hc).
  exists n, w'. split; [exact Hrun|]. split; [exact Htrim|exact (Hc "say ")].
Defined.

(** ** The example of the specification, run *)

(** C2. What the code makes of the six-line example: the tree is the
    expected one, and the three compiled lines are the expected texts each
    followed by the separator space of its leaf; so the compiled lines are
    not the three texts without a space at the end. *)
Theorem example_compiles_with_trailing_spaces :
  build_tree example_file = Ok ([example_tree], []) /\
  compiled_list [example_tree]
  = Ok [ "execute if a execute if b run cmd1 ";
         "execute if a execute if b run cmd2 ";
         "execute if a if c run cmd3 " ] /\
  compiled_list [example_tree]
  <> Ok [ "execute if a execute if b run cmd1";
          "execute if a execute if b run cmd2";
          "execute if a if c run cmd3" ] /\
  compile_tree_list [example_tree]
  = Ok ("execute if a execute if b run cmd1 " ++ newline ++
        "execute if a execute if b run cmd2 " ++ newline ++
        "execute if a if c run cmd3 " ++ newline)%string.
Proof.
  split; [vm_compute; reflexivity|]. split; [vm_compute; reflexivity|].
  split; [vm_compute; discriminate|vm_compute; reflexivity].
Qed.

(** ** The number of output lines *)

(** C3. Compiling the roots that the builder returns yields as many lines
    as the trees have Command Nodes without children plus Markers; and so
    does every real tree under every prefix, a node with children adding
    nothing of its own to the lines of its children. *)
Theorem output_line_count :
  (forall file, exists trees w lines,
      build_tree file = Ok (trees, w) /\
      compiled_list trees = Ok lines /\
      length lines
      = list_sum (map leaf_count trees) + list_sum (map marker_count trees)) /\
  (forall tree p, real tree = true ->
      exists lines, compile tree p = Ok lines /\
                    length lines = leaf_count tree + marker_count tree) /\
  (forall text child children,
      leaf_count (PyNode text (child :: children))
      = list_sum (map leaf_count (child :: children)) /\
      marker_count (PyNode text (child :: children))
      = list_sum (map marker_count (child :: children))).
Proof.
  split; [|split].
  - intros file. destruct (build_tree_total file) as (trees & w & Hb).
    destruct (compiled_list_loop_lines trees (build_tree_real _ _ _ Hb) [])
      as (l & Hl & Hlen).
    exists trees, w, l. auto.
  - intros tree p Hreal. apply compile_lines. assumption.
  - intros. split; reflexivity.
Qed.

Lemma output_line_count_witness :
  real example_tree = true /\
  exists lines, compile example_tree "" = Ok lines /\
                length lines = leaf_count example_tree + marker_count example_tree.
Proof.
  split; [reflexivity|].
  apply (proj1 (proj2 output_line_count) example_tree "" eq_refl).
Defined.

(** ** Termination *)

(** C7. A call of the element builder at a line of the file returns with
    any fuel of at least twice the number of lines from there on; the line
    it returns is within the file, and strictly after the line of the call
    when that line is not blank; more fuel never changes what is returned.
    The tree builder returns on every file, and its roots compile. *)
Theorem builder_terminates :
  (forall file line c w fuel,
      nth_error file line = Some c ->
      2 * (length file - line) <= fuel ->
      exists e n w',
        __build_element__ fuel file line w = Ok (e, n, w') /\
        n <= length file /\
        (is_blank c = false -> line < n) /\
        forall fuel', fuel <= fuel' ->
                      __build_element__ fuel' file line w = Ok (e, n, w')) /\
  (forall file, exists trees w out,
      build_tree file = Ok (trees, w) /\
      compile_tree_list trees = Ok out /\
      forall fuel, fuel_for file <= fuel ->
                   build_tree_loop fuel file 0 [] [] = Ok (trees, w)).
Proof.
  split.
  - intros file line c w fuel Hc Hfuel.
    assert (line < length file) as Hlt by (apply nth_error_Some; congruence).
    destruct (proj1 (build_total file fuel) line w Hlt Hfuel)
      as (e & n & w' & Hrun & Hn & Hadv).
    exists e, n, w'. split; [assumption|]. split; [assumption|].
    split; [intros Hb; apply (Hadv c Hc Hb)|].
    intros fuel' Hle. eapply builds_run; [|lia].
    eapply build_sound. eassumption.
  - intros file. destruct (build_tree_total file) as (trees & w & Hb).
    destruct (compiled_list_loop_lines trees (build_tree_real _ _ _ Hb) [])
      as (l & Hl & _).
    exists trees, w, (compiled_string_loop l "").
    split; [assumption|]. split.
    + unfold compile_tree_list, compiled_list. rewrite Hl. reflexivity.
    + intros fuel Hfuel. apply build_tree_roots in Hb.
      eapply roots_run; [eassumption|]. unfold fuel_for in Hfuel. lia.
Qed.

Lemma builder_terminates_witness :
  nth_error example_file 1 = Some (T "execute if b") /\
  2 * (length example_file - 1) <= 10 /\
  exists e n w',
    __build_element__ 10 example_file 1 [] = Ok (e, n, w') /\
    n <= length example_file /\ 1 < n.
Proof.
  split; [reflexivity|]. split; [vm_compute; lia|].
  destruct (proj1 builder_terminates example_file 1 (T "execute if b") [] 10
              eq_refl)
    as (e & n & w' & Hrun & Hn & Hadv & _); [vm_compute; lia|].
  exists e, n, w'. split; [exact Hrun|]. split; [exact Hn|].
  apply Hadv. reflexivity.
Defined.

(** ** No absent element *)

(** C10. The builder returns, and each of its roots is a real tree: a
    Marker or a Command Node whose descendants are all Markers or Command
    Nodes. The element builder returns the absent result only when called
    at a blank line, and at every other line of the file it returns a real
    tree; and the loop that attaches the children turns a real element
    into a real element, so no attached child is absent. *)
Theorem builder_yields_real_nodes :
  (forall file, exists trees w,
      build_tree file = Ok (trees, w) /\ forallb real trees = true) /\
  (forall file fuel line w n w',
      __build_element__ fuel file line w = Ok (PyNone, n, w') ->
      exists c, nth_error file line = Some c /\ is_blank c = true) /\
  (forall file line c w,
      nth_error file line = Some c -> is_blank c = false ->
      exists e n w',
        __build_element__ (fuel_for file) file line w = Ok (e, n, w') /\
        real e = true) /\
  (forall file fuel indent cur m w e n w',
      children_loop fuel file indent cur m w = Ok (e, n, w') ->
      real cur = true -> real e = true).
Proof.
  split; [|split; [|split]].
  - intros file. destruct (build_tree_total file) as (trees & w & Hb).
    exists trees, w. split; [assumption|]. eapply build_tree_real; eassumption.
  - intros file fuel line w n w' Hrun. apply build_sound in Hrun.
    inversion Hrun as [? ? c Hc Hb|? ? c ? ? ? Hc Hb Hl]; subst; [eauto|].
    exfalso.
    pose proof (proj2 (builds_all_nodes (fun _ => true) (fun _ _ => eq_refl) file)
                  _ _ _ _ _ _ _ Hl
                  (new_element_all_nodes _ (fun _ _ => eq_refl) c Hb)) as H.
    discriminate.
  - intros file line c w Hc Hb.
    assert (line < length file) as Hlt by (apply nth_error_Some; congruence).
    destruct (proj1 (build_total file (fuel_for file)) line w Hlt)
      as (e & n & w' & Hrun & _); [unfold fuel_for; lia|].
    exists e, n, w'. split; [assumption|].
    apply build_sound in Hrun.
    apply (proj1 (builds_all_nodes (fun _ => true) (fun _ _ => eq_refl) file)
             _ _ _ _ _ Hrun c Hc Hb).
  - intros file fuel indent cur m w e n w' Hl Hcur. apply build_sound in Hl.
    apply (proj2 (builds_all_nodes (fun _ => true) (fun _ _ => eq_refl) file)
             _ _ _ _ _ _ _ Hl Hcur).
Qed.

Lemma builder_yields_real_nodes_witness :
  nth_error example_file 4 = Some (T "if c") /\
  is_blank (T "if c") = false /\
  exists e n w',
    __build_element__ (fuel_for example_file) example_file 4 [] = Ok (e, n, w') /\
    real e = true.
Proof.
  split; [reflexivity|]. split; [reflexivity|].
  apply (proj1 (proj2 (proj2 builder_yields_real_nodes))
           example_file 4 (T "if c") [] eq_refl eq_refl).
Defined.

(** ** The classifier, as the element builder uses it *)

(** The loop over the lines below a command only adds children. *)
Lemma loops_node (file : list string) indent text children m w e n w' :
  loops file indent (PyNode text children) m w e n w' ->
  exists added, e = PyNode text (children ++ added).
Proof.
  remember (PyNode text children) as cur eqn:Ecur. intros Hl.
  revert children Ecur.
  induction Hl as [indent cur w
                  |indent cur m w c e n w' _ _ _ _ IH
                  |indent cur m w c child n1 w1 cur2 w2 e n w' _ _ _ _ _ Ha _ IH
                  |indent cur m w c _ _ _ _];
    intros children ->.
  - exists []. rewrite app_nil_r. reflexivity.
  - apply IH. reflexivity.
  - cbn [add_child] in Ha. injection Ha as <- <-.
    destruct (IH _ eq_refl) as (added & ->).
    rewrite <- app_assoc. eauto.
  - exists []. rewrite app_nil_r. reflexivity.
Qed.

(** C9. The indentation depth is the length of the longest leading run of
    tabs and spaces (three for a tab and two spaces). A line is blank when
    all its characters are whitespace, a comment when its first character
    that is not whitespace is [#], and a command when it is another one.
    The element builder treats a line as its kind says: it returns the
    absent result for a blank line, a Marker holding the trimmed line for
    a comment, and a Command Node holding the trimmed line for a command,
    the trimmed line being the line without the whitespace before its
    first and after its last character that is not whitespace. The tests
    of the source are the ones of the classifier, and both are total. *)
Theorem classifier_depth_and_kind :
  (forall line, exists run rest,
      line = (run ++ rest)%string /\
      __count_indents__ line = String.length run /\
      string_forall is_indent_char run /\
      (rest = "" \/ exists c rest', rest = String c rest' /\ ~ is_indent_char c)) /\
  __count_indents__ (String tab "  x") = 3 /\
  (forall line,
      (classify line = kind_blank <-> strip line = "") /\
      (classify line = kind_comment <->
         strip line <> "" /\ startswith (strip line) "#" = true) /\
      (classify line = kind_command <->
         strip line <> "" /\ startswith (strip line) "#" = false)) /\
  (forall file line c w,
      nth_error file line = Some c ->
      exists e n w',
        __build_element__ (fuel_for file) file line w = Ok (e, n, w') /\
        match classify c with
        | kind_blank => e = PyNone
        | kind_comment => e = PyMarker (strip c)
        | kind_command => exists children, e = PyNode (strip c) children
        end) /\
  (forall line,
      (classify line = kind_blank <-> all_space line) /\
      (classify line = kind_comment <->
         exists lead rest,
           line = (lead ++ String "#" rest)%string /\ all_space lead) /\
      (classify line = kind_command <->
         exists lead c rest,
           line = (lead ++ String c rest)%string /\ all_space lead /\
           isspace c = false /\ c <> "#"%char)) /\
  (forall line,
      trimming_of line (strip line) /\
      forall t, trimming_of line t -> t = strip line).
Proof.
  split; [exact count_indents_split|]. split; [reflexivity|].
  split; [|split; [|split]].
  3: { intros line. split; [apply classify_blank_spec|].
       split; [apply classify_comment_spec|apply classify_command_spec]. }
  3: { intros line. split; [apply strip_trimming|apply trimming_unique]. }
  - intros line.
    rewrite classify_blank, classify_comment, classify_command.
    rewrite is_blank_strip_empty.
    assert (is_blank line = false <-> strip line <> "") as ->.
    { rewrite <- is_blank_strip_empty. destruct (is_blank line); split;
        congruence. }
    tauto.
  - intros file line c w Hc.
    assert (line < length file) as Hlt by (apply nth_error_Some; congruence).
    destruct (proj1 (build_total file (fuel_for file)) line w Hlt)
      as (e & n & w' & Hrun & _); [unfold fuel_for; lia|].
    exists e, n, w'. split; [assumption|].
    apply build_sound in Hrun.
    destruct (classify c) eqn:Ek.
    + apply classify_blank in Ek.
      inversion Hrun; subst; [reflexivity|congruence].
    + apply classify_comment in Ek. destruct Ek as [Hb Hs].
      inversion Hrun as [|? ? c0 ? ? ? Hc0 Hb0 Hl]; subst; [congruence|].
      assert (c0 = c) by congruence. subst c0.
      unfold new_element in Hl. rewrite Hs in Hl.
      apply loops_marker in Hl. assumption.
    + apply classify_command in Ek. destruct Ek as [Hb Hs].
      inversion Hrun as [|? ? c0 ? ? ? Hc0 Hb0 Hl]; subst; [congruence|].
      assert (c0 = c) by congruence. subst c0.
      unfold new_element in Hl. rewrite Hs in Hl.
      apply loops_node in Hl. destruct Hl as (added & ->). eauto.
Qed.

Lemma classifier_depth_and_kind_witness :
  nth_error classifier_file 0 = Some (T "  # note  ") /\
  nth_error classifier_file 1 = Some (T "  ") /\
  nth_error classifier_file 2 = Some (T (T "run cmd1 ")) /\
  (exists n w',
      __build_element__ (fuel_for classifier_file) classifier_file 0 []
      = Ok (PyMarker "# note", n, w')) /\
  (exists n w',
      __build_element__ (fuel_for classifier_file) classifier_file 1 []
      = Ok (PyNone, n, w')) /\
  (exists children n w',
      __build_element__ (fuel_for classifier_file) classifier_file 2 []
      = Ok (PyNode "run cmd1" children, n, w')) /\
  trimming_of (T "  # note  ") "# note" /\
  trimming_of (T (T "run cmd1 ")) "run cmd1" /\
  trimming_of (T "  ") "".
Proof.
  destruct classifier_depth_and_kind as (_ & _ & _ & Hbuild & _ & Htrim).
  split; [reflexivity|]. split; [reflexivity|]. split; [reflexivity|].
  split; [|split; [|split; [|split; [|split]]]].
  - destruct (Hbuild classifier_file 0 (T "  # note  ") [] eq_refl)
      as (e & n & w' & Hrun & He).
    exists n, w'. cbv in He. rewrite He in Hrun. exact Hrun.
  - destruct (Hbuild classifier_file 1 (T "  ") [] eq_refl)
      as (e & n & w' & Hrun & He).
    exists n, w'. cbv in He. rewrite He in Hrun. exact Hrun.
  - destruct (Hbuild classifier_file 2 (T (T "run cmd1 ")) [] eq_refl)
      as (e & n & w' & Hrun & He).
    cbv in He. destruct He as (children & He).
    exists children, n, w'. rewrite He in Hrun. exact Hrun.
  - exact (proj1 (Htrim (T "  # note  "))).
  - exact (proj1 (Htrim (T (T "run cmd1 ")))).
  - exact (proj1 (Htrim (T "  "))).
Defined.

(** ** Children and indentation depth *)

Lemma builds_bounds (file : list string) line w e n w' :
  builds file line w e n w' ->
  n <= length file /\
  forall c, nth_error file line = Some c -> is_blank c = false -> line < n.
Proof.
  intros Hb.
  assert (line < length file) as Hlt.
  { apply nth_error_Some. inversion Hb; congruence. }
  destruct (proj1 (build_total file (2 * (length file - line))) line w Hlt)
    as (e2 & n2 & w2 & Hrun & Hn & Hadv); [lia|].
  rewrite (builds_run _ _ _ _ _ _ Hb) in Hrun by lia.
  injection Hrun as <- <- <-. split; [assumption|].
  intros c Hc Hblank. apply (Hadv c Hc Hblank).
Qed.

Lemma builds_real (file : list string) line w e n w' c :
  builds file line w e n w' ->
  nth_error file line = Some c -> is_blank c = false -> real e = true.
Proof.
  intros Hb. apply (proj1 (builds_all_nodes (fun _ => true)
                             (fun _ _ => eq_refl) file) _ _ _ _ _ Hb).
Qed.

Lemma add_child_node text children child w :
  real child = true ->
  add_child (PyNode text children) child w
  = Ok (PyNode text (children ++ [child]), w).
Proof. destruct child; try discriminate; reflexivity. Qed.

Lemma loops_children (file : list string) indent text children m w e n w' :
  loops file indent (PyNode text children) m w e n w' ->
  exists added,
    e = PyNode text (children ++ added) /\
    forall i, i < m -> Forall (built_below file i indent) added.
Proof.
  remember (PyNode text children) as cur eqn:Ecur. intros Hl.
  revert children Ecur.
  induction Hl as [indent cur w
                  |indent cur m w c e n w' _ _ _ _ IH
                  |indent cur m w c child n1 w1 cur2 w2 e n w'
                     _ Hc Hb Hi Hbuild Ha _ IH
                  |indent cur m w c _ _ _ _];
    intros children ->.
  - exists []. rewrite app_nil_r. auto.
  - destruct (IH _ eq_refl) as (added & -> & Hall).
    exists added. split; [reflexivity|]. intros i Hi. apply Hall. lia.
  - rewrite add_child_node in Ha by (eapply builds_real; eassumption).
    injection Ha as <- <-.
    destruct (IH _ eq_refl) as (added & -> & Hall).
    exists (child :: added). rewrite <- app_assoc. split; [reflexivity|].
    intros i Him. constructor.
    + exists m, c, w, n1, w1. repeat split; auto.
      eapply builds_run; [eassumption|]. unfold fuel_for. lia.
    + apply Hall. destruct (builds_bounds _ _ _ _ _ _ Hbuild) as [_ Hadv].
      specialize (Hadv c Hc Hb). lia.
  - exists []. rewrite app_nil_r. auto.
Qed.

Lemma loops_first_child (file : list string) indent text children m w e n w' :
  loops file indent (PyNode text children) m w e n w' ->
  forall j cj,
    m <= j ->
    (forall k ck, m <= k < j -> nth_error file k = Some ck -> is_blank ck = true) ->
    nth_error file j = Some cj -> is_blank cj = false ->
    indent < __count_indents__ cj ->
    exists child n1 w1 rest,
      builds file j w child n1 w1 /\
      e = PyNode text (children ++ child :: rest).
Proof.
  remember (PyNode text children) as cur eqn:Ecur. intros Hl.
  revert children Ecur.
  induction Hl as [indent cur w
                  |indent cur m w c e n w' Hm Hc Hb _ IH
                  |indent cur m w c child n1 w1 cur2 w2 e n w'
                     Hm Hc Hb Hi Hbuild Ha Hl _
                  |indent cur m w c Hm Hc Hb Hi];
    intros children -> j cj Hmj Hblank Hcj Hbj Hdeep.
  - assert (j < length file) by (apply nth_error_Some; congruence). lia.
  - assert (j <> m) by congruence.
    apply (IH _ eq_refl j cj); auto; try lia.
    intros k ck Hk. apply Hblank. lia.
  - assert (j = m) as ->.
    { destruct (Nat.eq_dec j m) as [|N]; [assumption|].
      assert (is_blank c = true) by (apply (Hblank m c); [lia|assumption]).
      congruence. }
    rewrite add_child_node in Ha by (eapply builds_real; eassumption).
    injection Ha as <- <-.
    apply loops_node in Hl. destruct Hl as (added & ->).
    exists child, n1, w1, added. rewrite <- app_assoc. auto.
  - assert (j = m) as ->.
    { destruct (Nat.eq_dec j m) as [|N]; [assumption|].
      assert (is_blank c = true) by (apply (Hblank m c); [lia|assumption]).
      congruence. }
    assert (cj = c) by congruence. subst cj. contradiction.
Qed.

(** C5, against the claim as written: below a comment line, a deeper line
    does not become a child; the element built at the comment is a Marker. *)
Lemma deeper_line_below_comment_is_no_child :
  ~ deeper_line_is_child ["# c"; T "x"] 0 1.
Proof.
  intros H.
  destruct (H "# c" (T "x") [] eq_refl eq_refl) as
    (child & n1 & w1 & text & children & n & w' & _ & Hrun & _).
  - split; [lia|]. split; [exists (T "x"); split; reflexivity|].
    intros k ck Hk. lia.
  - reflexivity.
  - vm_compute; lia.
  - vm_compute in Hrun. discriminate.
Qed.

Lemma roots_built (file : list string) line tree_list w trees w' :
  roots file line tree_list w trees w' ->
  Forall (built file) tree_list -> Forall (built file) trees.
Proof.
  induction 1 as [| |line tl w c e n w1 trees w' _ Hc Hb Hbuild _ IH]; auto.
  intros Htl. apply IH. apply Forall_app. split; [assumption|].
  constructor; [|constructor].
  exists line, c, w, n, w1. repeat split; auto.
  eapply builds_run; [eassumption|]. unfold fuel_for. lia.
Qed.

(** C5, amended. Every root that the tree builder returns is what the
    element builder returns at some non-blank line, and every child of a
    Command Node built at line [i] is what the element builder returns at
    a later, non-blank line whose depth is strictly greater than the depth
    of line [i]. And when line [i] is a command, the first non-blank line
    after it, if deeper by any amount, becomes a direct child, the first
    one, of the node built at line [i]. *)
Theorem children_are_deeper_lines :
  (forall file trees w,
      build_tree file = Ok (trees, w) -> Forall (built file) trees) /\
  (forall file i w text children n w',
      __build_element__ (fuel_for file) file i w
      = Ok (PyNode text children, n, w') ->
      exists c,
        nth_error file i = Some c /\ text = strip c /\
        Forall (built_below file i (__count_indents__ c)) children) /\
  (forall file i j c cj w,
      nth_error file i = Some c -> classify c = kind_command ->
      next_nonblank file i j ->
      nth_error file j = Some cj ->
      __count_indents__ c < __count_indents__ cj ->
      first_child_at file i j w /\ child_at file i j w).
Proof.
  split; [|split].
  - intros file trees w Hb. apply build_tree_roots in Hb.
    apply (roots_built _ _ _ _ _ _ Hb). constructor.
  - intros file i w text children n w' Hrun. apply build_sound in Hrun.
    inversion Hrun as [|? ? c ? ? ? Hc Hb Hl]; subst.
    exists c. split; [assumption|].
    unfold new_element, marker, node in Hl.
    destruct (startswith (strip c) "#").
    + apply loops_marker in Hl. discriminate.
    + destruct (loops_children _ _ _ _ _ _ _ _ _ Hl) as (added & He & Hall).
      injection He as <- ->. split; [reflexivity|].
      apply Hall. lia.
  - intros file i j c cj w Hc Hk
      (Hij & (cj' & Hcj' & Hbj') & Hblank) Hcj Hdeep.
    apply classify_command in Hk. destruct Hk as [Hb Hs].
    assert (i < length file) as Hlt by (apply nth_error_Some; congruence).
    destruct (proj1 (build_total file (fuel_for file)) i w Hlt)
      as (e & n & w' & Hrun & _); [unfold fuel_for; lia|].
    pose proof Hrun as Hbuilds. apply build_sound in Hbuilds.
    inversion Hbuilds as [|? ? c0 ? ? ? Hc0 Hb0 Hl]; subst; [congruence|].
    assert (c0 = c) by congruence. subst c0.
    unfold new_element in Hl. rewrite Hs in Hl. unfold node in Hl.
    assert (is_blank cj = false) as Hbj by congruence.
    destruct (loops_first_child _ _ _ _ _ _ _ _ _ Hl j cj)
      as (child & n1 & w1 & rest & Hchild & ->); auto; try lia.
    { intros k ck Hk. apply Hblank. lia. }
    assert (__build_element__ (fuel_for file) file j w = Ok (child, n1, w1))
      as Hrunj.
    { eapply builds_run; [eassumption|]. unfold fuel_for. lia. }
    split.
    + exists child, n1, w1, (strip c), rest, n, w'. auto.
    + exists child, n1, w1, (strip c), (child :: rest), n, w'.
      repeat split; auto. left. reflexivity.
Qed.

Lemma children_are_deeper_lines_witness :
  nth_error ["say a"; ""; T (T (T "say b"))] 0 = Some "say a" /\
  classify "say a" = kind_command /\
  next_nonblank ["say a"; ""; T (T (T "say b"))] 0 2 /\
  __count_indents__ "say a" < __count_indents__ (T (T (T "say b"))) /\
  first_child_at ["say a"; ""; T (T (T "say b"))] 0 2 [].
Proof.
  assert (next_nonblank ["say a"; ""; T (T (T "say b"))] 0 2) as Hnext.
  { split; [lia|]. split.
    - exists (T (T (T "say b"))). split; reflexivity.
    - intros k ck Hk Hck. assert (k = 1) as -> by lia.
      injection Hck as <-. reflexivity. }
  assert (__count_indents__ "say a" < __count_indents__ (T (T (T "say b"))))
    as Hdeep by (vm_compute; lia).
  split; [reflexivity|]. split; [reflexivity|]. split; [exact Hnext|].
  split; [exact Hdeep|].
  apply (proj2 (proj2 children_are_deeper_lines)
           ["say a"; ""; T (T (T "say b"))] 0 2 "say a" (T (T (T "say b"))) []
           eq_refl eq_refl Hnext eq_refl Hdeep).
Defined.

(** ** A line below a comment *)

Lemma add_child_warnings cur child w cur2 w2 :
  add_child cur child w = Ok (cur2, w2) -> exists d, w2 = w ++ d.
Proof.
  destruct cur; cbn [add_child]; try discriminate; intros [= <- <-].
  - eauto.
  - exists []. symmetry. apply app_nil_r.
Qed.

Lemma builds_warnings_grow (file : list string) :
  (forall line w e n w',
      builds file line w e n w' -> exists d, w' = w ++ d) /\
  (forall indent cur m w e n w',
      loops file indent cur m w e n w' -> exists d, w' = w ++ d).
Proof.
  apply builds_loops_ind; intros;
    try (exists []; symmetry; apply app_nil_r); auto.
  repeat match goal with
         | H : exists _, _ |- _ => destruct H as (? & ->)
         | H : add_child _ _ _ = Ok _ |- _ =>
             apply add_child_warnings in H; destruct H as (? & ->)
         end.
  rewrite <- !app_assoc. eauto.
Qed.

Lemma roots_warnings_grow (file : list string) line tree_list w trees w' :
  roots file line tree_list w trees w' -> exists d, w' = w ++ d.
Proof.
  induction 1 as [| |line tl w c e n w1 trees w' _ _ _ Hb _ IH]; auto.
  - exists []. symmetry. apply app_nil_r.
  - apply builds_warnings_grow in Hb. destruct Hb as (d1 & ->).
    destruct IH as (d2 & ->). rewrite <- app_assoc. eauto.
Qed.

Lemma loops_marker_warns (file : list string) indent text m w e n w' :
  loops file indent (PyMarker text) m w e n w' ->
  forall j cj,
    m <= j ->
    (forall k ck, m <= k < j -> nth_error file k = Some ck -> is_blank ck = true) ->
    nth_error file j = Some cj -> is_blank cj = false ->
    indent < __count_indents__ cj ->
    exists child n1 w1 d,
      builds file j w child n1 w1 /\ w' = w1 ++ warn_text :: d.
Proof.
  remember (PyMarker text) as cur eqn:Ecur. intros Hl. revert Ecur.
  induction Hl as [indent cur w
                  |indent cur m w c e n w' Hm Hc Hb _ IH
                  |indent cur m w c child n1 w1 cur2 w2 e n w'
                     Hm Hc Hb Hi Hbuild Ha Hl _
                  |indent cur m w c Hm Hc Hb Hi];
    intros -> j cj Hmj Hblank Hcj Hbj Hdeep.
  - assert (j < length file) by (apply nth_error_Some; congruence). lia.
  - assert (j <> m) by congruence.
    apply (IH eq_refl j cj); auto; try lia.
    intros k ck Hk. apply Hblank. lia.
  - assert (j = m) as ->.
    { destruct (Nat.eq_dec j m) as [|N]; [assumption|].
      assert (is_blank c = true) by (apply (Hblank m c); [lia|assumption]).
      congruence. }
    rewrite add_child_marker in Ha. injection Ha as <- <-.
    apply builds_warnings_grow in Hl. destruct Hl as (d & ->).
    exists child, n1, w1, d. split; [assumption|].
    rewrite <- app_assoc. reflexivity.
  - assert (j = m) as ->.
    { destruct (Nat.eq_dec j m) as [|N]; [assumption|].
      assert (is_blank c = true) by (apply (Hblank m c); [lia|assumption]).
      congruence. }
    assert (cj = c) by congruence. subst cj. contradiction.
Qed.

Lemma builds_comment_warns (file : list string) i c j cj w e n w' :
  nth_error file i = Some c -> classify c = kind_comment ->
  next_nonblank file i j -> nth_error file j = Some cj ->
  __count_indents__ c < __count_indents__ cj ->
  builds file i w e n w' ->
  e = PyMarker (strip c) /\
  exists child n1 w1 d,
    builds file j w child n1 w1 /\ w' = w1 ++ warn_text :: d.
Proof.
  intros Hc Hk (Hij & (cj' & Hcj' & Hbj) & Hblank) Hcj Hdeep Hb.
  assert (cj' = cj) by congruence. subst cj'.
  apply classify_comment in Hk. destruct Hk as [Hbc Hs].
  inversion Hb as [|? ? c0 ? ? ? Hc0 Hb0 Hl]; subst; [congruence|].
  assert (c0 = c) by congruence. subst c0.
  unfold new_element in Hl. rewrite Hs in Hl. unfold marker in Hl.
  split; [eapply loops_marker; eassumption|].
  eapply loops_marker_warns; eauto; try lia.
  intros k ck Hk. apply Hblank. lia.
Qed.

(** Every line between the line of a call and the line the call returns
    is handled within the call. *)
Lemma builds_reach_comment (file : list string) :
  (forall line w e n w',
      builds file line w e n w' ->
      forall i, line <= i < n -> comment_above_deeper_line file i ->
                In warn_text w') /\
  (forall indent cur m w e n w',
      loops file indent cur m w e n w' ->
      forall i, m <= i < n -> comment_above_deeper_line file i ->
                In warn_text w').
Proof.
  apply builds_loops_ind.
  - intros; lia.
  - intros line w c e n w' Hc Hb Hl IH i Hi Hcom.
    destruct (Nat.eq_dec i line) as [->|N]; [|apply (IH i); [lia|assumption]].
    destruct Hcom as (c' & j & cj & Hc' & Hk & Hnext & Hcj & Hdeep).
    destruct (builds_comment_warns file line c' j cj w e n w') as
      (_ & child & n1 & w1 & d & _ & ->); auto.
    + apply (builds_elem file line w c e n w' Hc Hb Hl).
    + apply in_or_app. right. left. reflexivity.
  - intros; lia.
  - intros indent cur m w c e n w' Hm Hc Hb Hl IH i Hi Hcom.
    apply (IH i); [|assumption].
    assert (i <> m); [|lia]. intros ->.
    destruct Hcom as (c' & _ & _ & Hc' & Hk & _).
    apply classify_comment in Hk. destruct Hk as [Hk _]. congruence.
  - intros indent cur m w c child n1 w1 cur2 w2 e n w'
      Hm Hc Hb Hi Hbuild IHb Ha Hl IHl i Hin Hcom.
    destruct (Nat.lt_ge_cases i n1) as [Hlt|Hge].
    + apply add_child_warnings in Ha. destruct Ha as (d1 & ->).
      apply builds_warnings_grow in Hl. destruct Hl as (d2 & ->).
      apply in_or_app. left. apply in_or_app. left.
      apply (IHb i); [lia|assumption].
    + apply (IHl i); [lia|assumption].
  - intros; lia.
Qed.

Lemma roots_reach_comment (file : list string) line tree_list w trees w' :
  roots file line tree_list w trees w' ->
  forall i, line <= i -> comment_above_deeper_line file i -> In warn_text w'.
Proof.
  induction 1 as [line tl w Hge
                 |line tl w c trees w' Hlt Hc Hb _ IH
                 |line tl w c e n w1 trees w' Hlt Hc Hb Hbuild Hr IH];
    intros i Hi Hcom.
  - destruct Hcom as (c' & _ & _ & Hc' & _).
    assert (i < length file) by (apply nth_error_Some; congruence). lia.
  - apply (IH i); [|assumption].
    assert (i <> line); [|lia]. intros ->.
    destruct Hcom as (c' & _ & _ & Hc' & Hk & _).
    apply classify_comment in Hk. destruct Hk as [Hk _]. congruence.
  - destruct (Nat.lt_ge_cases i n) as [Hin|Hge].
    + apply roots_warnings_grow in Hr. destruct Hr as (d & ->).
      apply in_or_app. left.
      apply (proj1 (builds_reach_comment file) _ _ _ _ _ Hbuild i);
        [lia|assumption].
    + apply (IH i); assumption.
Qed.



(** ** Blank lines *)

Lemma rank_0 (file : list string) : rank file 0 = 0.
Proof. destruct file; reflexivity. Qed.

Lemma rank_step (file : list string) :
  forall i c, nth_error file i = Some c ->
              rank file (i + 1) = rank file i + (if is_blank c then 0 else 1).
Proof.
  induction file as [|a rest IH]; intros [|i] c; cbn [nth_error];
    try discriminate.
  - intros [= ->]. cbn [rank Nat.add]. rewrite rank_0. lia.
  - intros H. cbn [rank Nat.add]. rewrite (IH i c H). lia.
Qed.

Lemma rank_nth (file : list string) :
  forall i c, nth_error file i = Some c -> is_blank c = false ->
              nth_error (nonblank_lines file) (rank file i) = Some c.
Proof.
  induction file as [|a rest IH]; intros [|i] c; cbn [nth_error];
    try discriminate.
  - intros [= ->] Hb. cbn [nonblank_lines filter rank]. rewrite Hb. reflexivity.
  - intros H Hb. cbn [nonblank_lines filter rank].
    destruct (is_blank a); cbn [negb Nat.add nth_error]; apply IH; assumption.
Qed.

Lemma rank_length (file : list string) :
  forall i, length file <= i -> rank file i = length (nonblank_lines file).
Proof.
  induction file as [|a rest IH]; intros i Hi; [destruct i; reflexivity|].
  cbn [length] in Hi. destruct i as [|i]; [lia|].
  cbn [rank nonblank_lines filter].
  destruct (is_blank a); cbn [negb length Nat.add];
    fold (nonblank_lines rest); rewrite (IH i) by lia; reflexivity.
Qed.

(** A run of the builder on a file is a run on its non-blank lines. *)
Lemma builds_nonblank (file : list string) :
  (forall line w e n w',
      builds file line w e n w' ->
      forall c, nth_error file line = Some c -> is_blank c = false ->
                builds (nonblank_lines file) (rank file line) w e (rank file n) w') /\
  (forall indent cur m w e n w',
      loops file indent cur m w e n w' ->
      loops (nonblank_lines file) indent cur (rank file m) w e (rank file n) w').
Proof.
  apply builds_loops_ind.
  - intros line w c Hc Hb c' Hc' Hb'. congruence.
  - intros line w c e n w' Hc Hb Hl IH c' _ _.
    eapply builds_elem; [apply rank_nth; eassumption|assumption|].
    rewrite (rank_step _ _ _ Hc), Hb in IH. exact IH.
  - intros indent cur w. rewrite rank_length by lia. apply loops_end.
  - intros indent cur m w c e n w' Hm Hc Hb Hl IH.
    rewrite (rank_step _ _ _ Hc), Hb, Nat.add_0_r in IH. exact IH.
  - intros indent cur m w c child n1 w1 cur2 w2 e n w'
      Hm Hc Hb Hi Hbuild IHb Ha Hl IHl.
    pose proof (rank_nth _ _ _ Hc Hb) as Hr.
    eapply loops_child; eauto.
    intros E. rewrite E in Hr.
    assert (nth_error (nonblank_lines file) (length (nonblank_lines file)) = None)
      by (apply nth_error_None; lia).
    congruence.
  - intros indent cur m w c Hm Hc Hb Hi.
    pose proof (rank_nth _ _ _ Hc Hb) as Hr.
    eapply loops_break; eauto.
    intros E. rewrite E in Hr.
    assert (nth_error (nonblank_lines file) (length (nonblank_lines file)) = None)
      by (apply nth_error_None; lia).
    congruence.
Qed.

Lemma roots_nonblank (file : list string) line tree_list w trees w' :
  roots file line tree_list w trees w' ->
  roots (nonblank_lines file) (rank file line) tree_list w trees w'.
Proof.
  induction 1 as [line tl w Hge
                 |line tl w c trees w' Hlt Hc Hb _ IH
                 |line tl w c e n w1 trees w' Hlt Hc Hb Hbuild _ IH].
  - apply roots_end. rewrite rank_length by lia. lia.
  - rewrite (rank_step _ _ _ Hc), Hb, Nat.add_0_r in IH. exact IH.
  - pose proof (rank_nth _ _ _ Hc Hb) as Hr.
    eapply roots_elem; eauto.
    + apply nth_error_Some. congruence.
    + apply (proj1 (builds_nonblank file) _ _ _ _ _ Hbuild c Hc Hb).
Qed.

Lemma build_tree_nonblank (file : list string) :
  build_tree file = build_tree (nonblank_lines file).
Proof.
  destruct (build_tree_total file) as (trees & w & Hb). rewrite Hb.
  symmetry. apply build_tree_roots. apply build_tree_roots in Hb.
  apply roots_nonblank in Hb. rewrite rank_0 in Hb. exact Hb.
Qed.

Lemma nonblank_lines_insert (before blanks after : list string) :
  forallb is_blank blanks = true ->
  nonblank_lines (before ++ blanks ++ after) = nonblank_lines (before ++ after).
Proof.
  intros Hblank. unfold nonblank_lines. rewrite !filter_app. f_equal.
  replace (filter (fun c => negb (is_blank c)) blanks) with (@nil string);
    [reflexivity|].
  induction blanks as [|b bs IH]; [reflexivity|].
  cbn [forallb] in Hblank. apply andb_true_iff in Hblank.
  destruct Hblank as [Hb Hbs]. cbn [filter]. rewrite Hb. cbn [negb]. auto.
Qed.

(** The lines compiled from trees whose texts are not blank. *)

Lemma for_child_nonblank (next_str : string) (cs : list pyval) :
  Forall (fun v => forall p l, compile v p = Ok l ->
                               Forall (fun s => has_nonspace s = true) l) cs ->
  forall acc l,
    for_child next_str cs acc = Ok l ->
    Forall (fun s => has_nonspace s = true) acc ->
    Forall (fun s => has_nonspace s = true) l.
Proof.
  induction 1 as [|v cs Hv _ IH]; intros acc l; cbn [for_child].
  - intros [= <-]. auto.
  - intros H Hacc. apply bind_Ok in H. destruct H as (l1 & Hc & H).
    apply (IH _ _ H). apply Forall_app. split; [assumption|].
    eapply Hv. eassumption.
Qed.

Lemma compile_nonblank (v : pyval) :
  all_nodes has_nonspace v = true ->
  forall p l, compile v p = Ok l -> Forall (fun s => has_nonspace s = true) l.
Proof.
  induction v as [| | |s children IH] using pyval_nested_ind;
    cbn [all_nodes]; try discriminate.
  - intros Hs p l [= <-]. auto.
  - intros H p l. apply andb_true_iff in H. destruct H as [Hs Hch].
    rewrite compile_node. destruct (0 <? length children).
    + intros Hrun. eapply for_child_nonblank; [|eassumption|constructor].
      rewrite Forall_forall in *. rewrite forallb_forall in Hch.
      intros x Hx. apply IH; auto.
    + intros [= <-]. constructor; [|constructor].
      rewrite !has_nonspace_app, Hs. apply orb_true_r.
Qed.

Lemma compiled_list_loop_nonblank (trees : list pyval) :
  forallb (all_nodes has_nonspace) trees = true ->
  forall acc l,
    compiled_list_loop trees acc = Ok l ->
    Forall (fun s => has_nonspace s = true) acc ->
    Forall (fun s => has_nonspace s = true) l.
Proof.
  induction trees as [|t ts IH]; intros Hall acc l; cbn [compiled_list_loop].
  - intros [= <-]. auto.
  - cbn [forallb] in Hall. apply andb_true_iff in Hall.
    destruct Hall as [Ht Hts].
    intros H Hacc. apply bind_Ok in H. destruct H as (l1 & Hc & H).
    apply (IH Hts _ _ H). apply Forall_app. split; [assumption|].
    eapply compile_nonblank; eassumption.
Qed.

(** C8. Putting blank lines into a file at any place, or taking them out,
    leaves the result of the tree builder (the roots and the warnings) and
    the compiled text the same: two files with the same non-blank lines,
    in the same order, build and compile alike. And no line compiled from
    the builder's roots is blank. *)
Theorem blank_lines_do_not_matter :
  (forall before blanks after,
      forallb is_blank blanks = true ->
      build_tree (before ++ blanks ++ after) = build_tree (before ++ after) /\
      compile_text (before ++ blanks ++ after) = compile_text (before ++ after)) /\
  (forall file1 file2,
      nonblank_lines file1 = nonblank_lines file2 ->
      build_tree file1 = build_tree file2 /\
      compile_text file1 = compile_text file2) /\
  (forall file trees w lines,
      build_tree file = Ok (trees, w) ->
      compiled_list trees = Ok lines ->
      Forall (fun l => is_blank l = false) lines).
Proof.
  assert (forall file1 file2,
             nonblank_lines file1 = nonblank_lines file2 ->
             build_tree file1 = build_tree file2 /\
             compile_text file1 = compile_text file2) as Hsame.
  { intros file1 file2 E.
    assert (build_tree file1 = build_tree file2) as Hb.
    { rewrite (build_tree_nonblank file1), (build_tree_nonblank file2), E.
      reflexivity. }
    split; [assumption|]. unfold compile_text. rewrite Hb. reflexivity. }
  split; [|split].
  - intros before blanks after Hblank. apply Hsame.
    apply nonblank_lines_insert. assumption.
  - exact Hsame.
  - intros file trees w lines Hb Hc.
    apply build_tree_texts in Hb.
    pose proof (compiled_list_loop_nonblank trees Hb [] lines Hc
                  (Forall_nil _)) as H.
    rewrite Forall_forall in *. intros l Hl.
    rewrite is_blank_spec, (H l Hl). reflexivity.
Qed.

Lemma blank_lines_do_not_matter_witness :
  forallb is_blank [ ""; T (T "  ") ] = true /\
  build_tree spaced_example_file = build_tree example_file /\
  compile_text spaced_example_file = compile_text example_file.
Proof.
  split; [reflexivity|].
  apply (proj1 blank_lines_do_not_matter
           [ "execute if a"; T "execute if b"; T (T "run cmd1") ]
           [ ""; T (T "  ") ]
           [ T (T "run cmd2"); T "if c"; T (T "run cmd3") ] eq_refl).
Defined.

(** * Part IV: further properties of the code *)

(** ** The two forms of the builder's relations agree *)

Lemma skipn_nth (file : list string) :
  forall m c, nth_error file m = Some c ->
              skipn m file = c :: skipn (m + 1) file.
Proof.
  induction file as [|a rest IH]; intros [|m] c; cbn [nth_error];
    try discriminate.
  - intros [= ->]. reflexivity.
  - intros H. cbn [skipn Nat.add]. apply IH. assumption.
Qed.

Lemma builds_suffix (file : list string) :
  (forall line w e n w',
      builds file line w e n w' ->
      sbuilds (skipn line file) w e (skipn n file) w') /\
  (forall indent cur m w e n w',
      loops file indent cur m w e n w' ->
      sloops indent cur (skipn m file) w e (skipn n file) w').
Proof.
  apply builds_loops_ind.
  - intros line w c Hc Hb. rewrite (skipn_nth _ _ _ Hc).
    apply sbuilds_blank. assumption.
  - intros line w c e n w' Hc Hb _ IH. rewrite (skipn_nth _ _ _ Hc).
    apply sbuilds_elem; assumption.
  - intros indent cur w. rewrite skipn_all. apply sloops_end.
  - intros indent cur m w c e n w' _ Hc Hb _ IH.
    rewrite (skipn_nth _ _ _ Hc). apply sloops_skip; assumption.
  - intros indent cur m w c child n1 w1 cur2 w2 e n w'
      _ Hc Hb Hi _ IHb Ha _ IHl.
    rewrite (skipn_nth _ _ _ Hc) in *.
    eapply sloops_child; eassumption.
  - intros indent cur m w c _ Hc Hb Hi. rewrite (skipn_nth _ _ _ Hc).
    apply sloops_break; assumption.
Qed.

Lemma roots_suffix (file : list string) line tree_list w trees w' :
  roots file line tree_list w trees w' ->
  sroots (skipn line file) tree_list w trees w'.
Proof.
  induction 1 as [line tl w Hge
                 |line tl w c trees w' _ Hc Hb _ IH
                 |line tl w c e n w1 trees w' _ Hc Hb Hbuild _ IH].
  - rewrite skipn_all2 by lia. apply sroots_end.
  - rewrite (skipn_nth _ _ _ Hc). apply sroots_skip; assumption.
  - apply (proj1 (builds_suffix file)) in Hbuild.
    rewrite (skipn_nth _ _ _ Hc) in *.
    eapply sroots_elem; eassumption.
Qed.

Lemma sbuilds_sloops_functional :
  (forall rest w e rest' w',
      sbuilds rest w e rest' w' ->
      forall e2 rest2 w2, sbuilds rest w e2 rest2 w2 ->
                          e2 = e /\ rest2 = rest' /\ w2 = w') /\
  (forall indent cur rest w e rest' w',
      sloops indent cur rest w e rest' w' ->
      forall e2 rest2 w2, sloops indent cur rest w e2 rest2 w2 ->
                          e2 = e /\ rest2 = rest' /\ w2 = w').
Proof.
  apply sbuilds_sloops_ind.
  - intros c rest w Hb e2 rest2 w2 H2.
    inversion H2; subst; [auto|congruence].
  - intros c rest w e rest' w' Hb _ IH e2 rest2 w2 H2.
    inversion H2; subst; [congruence|auto].
  - intros indent cur w e2 rest2 w2 H2. inversion H2; subst; auto.
  - intros indent cur c rest w e rest' w' Hb _ IH e2 rest2 w2 H2.
    inversion H2; subst; try congruence. auto.
  - intros indent cur c rest w child rest1 w1 cur2 w2 e rest' w'
      Hb Hi _ IHb Ha _ IHl e2 rest2 w3 H2.
    inversion H2; subst; try congruence; try contradiction.
    match goal with
    | H : sbuilds (c :: rest) w ?a ?b ?d |- _ =>
        destruct (IHb _ _ _ H) as (-> & -> & ->)
    end.
    match goal with
    | H : add_child cur child w1 = Ok (?a, ?b),
      H' : sloops indent ?a rest1 ?b _ _ _ |- _ =>
        apply IHl; congruence
    end.
  - intros indent cur c rest w Hb Hi e2 rest2 w2 H2.
    inversion H2; subst; auto; try congruence; contradiction.
Qed.

Lemma sroots_functional rest tree_list w trees w' :
  sroots rest tree_list w trees w' ->
  forall trees2 w2, sroots rest tree_list w trees2 w2 ->
                    trees2 = trees /\ w2 = w'.
Proof.
  induction 1 as [tl w
                 |c rest tl w trees w' Hb _ IH
                 |c rest tl w e rest1 w1 trees w' Hb Hbuild _ IH];
    intros trees2 w2 H2; inversion H2; subst; auto; try congruence.
  match goal with
  | H : sbuilds (c :: rest) w _ _ _ |- _ =>
      destruct (proj1 sbuilds_sloops_functional _ _ _ _ _ Hbuild _ _ _ H)
        as (-> & -> & ->)
  end.
  apply IH. assumption.
Qed.

(** [build_tree] returns exactly what [sroots] derives. *)
Lemma build_tree_sroots (file : list string) trees w :
  build_tree file = Ok (trees, w) <-> sroots file [] [] trees w.
Proof.
  split.
  - intros H. apply build_tree_roots in H. apply roots_suffix in H.
    exact H.
  - intros H. destruct (build_tree_total file) as (t2 & w2 & Hb).
    pose proof Hb as Hr. apply build_tree_roots in Hr.
    apply roots_suffix in Hr. cbn [skipn] in Hr.
    destruct (sroots_functional _ _ _ _ _ H _ _ Hr) as [-> ->].
    assumption.
Qed.

(** ** Where a call of the element builder stops *)

Lemma builds_extent (file : list string) :
  (forall line w e n w',
      builds file line w e n w' ->
      forall c, nth_error file line = Some c -> is_blank c = false ->
        (forall k ck, line < k < n -> nth_error file k = Some ck ->
                      is_blank ck = true \/
                      __count_indents__ c < __count_indents__ ck) /\
        (n = length file \/
         exists cn, nth_error file n = Some cn /\ is_blank cn = false /\
                    __count_indents__ cn <= __count_indents__ c)) /\
  (forall indent cur m w e n w',
      loops file indent cur m w e n w' ->
        (forall k ck, m <= k < n -> nth_error file k = Some ck ->
                      is_blank ck = true \/ indent < __count_indents__ ck) /\
        (n = length file \/
         exists cn, nth_error file n = Some cn /\ is_blank cn = false /\
                    __count_indents__ cn <= indent)).
Proof.
  apply builds_loops_ind.
  - intros line w c Hc Hb c' Hc' Hb'. congruence.
  - intros line w c e n w' Hc Hb _ [IHin IHstop] c' Hc' _.
    assert (c' = c) by congruence. subst c'. split; [|assumption].
    intros k ck Hk. apply IHin. lia.
  - intros indent cur w. split; [intros; lia|auto].
  - intros indent cur m w c e n w' _ Hc Hb _ [IHin IHstop].
    split; [|assumption]. intros k ck Hk Hck.
    destruct (Nat.eq_dec k m) as [->|N]; [left; congruence|].
    apply (IHin k ck); [lia|assumption].
  - intros indent cur m w c child n1 w1 cur2 w2 e n w'
      _ Hc Hb Hi _ IHb _ _ [IHin IHstop].
    destruct (IHb c Hc Hb) as [IHbin _].
    split; [|assumption]. intros k ck Hk Hck.
    destruct (Nat.eq_dec k m) as [->|N]; [right; congruence|].
    destruct (Nat.lt_ge_cases k n1) as [Hlt|Hge].
    + destruct (IHbin k ck) as [?|?]; auto; [lia|]. right. lia.
    + apply (IHin k ck); [lia|assumption].
  - intros indent cur m w c _ Hc Hb Hi. split; [intros; lia|].
    right. exists c. repeat split; auto. lia.
Qed.

(** X1. A call of the element builder at a non-blank line returns, and
    returns the cursor strictly after that line, at the end of the file or
    at the first non-blank line that is not deeper than the line of the
    call: every line in between is blank or strictly deeper. *)
Theorem element_extent :
  forall file line c w,
    nth_error file line = Some c -> is_blank c = false ->
    exists e n w',
      __build_element__ (fuel_for file) file line w = Ok (e, n, w') /\
      line < n <= length file /\
      (forall k ck, line < k < n -> nth_error file k = Some ck ->
                    is_blank ck = true \/
                    __count_indents__ c < __count_indents__ ck) /\
      (n = length file \/
       exists cn, nth_error file n = Some cn /\ is_blank cn = false /\
                  __count_indents__ cn <= __count_indents__ c).
Proof.
  intros file line c w Hc Hb.
  assert (line < length file) as Hlt by (apply nth_error_Some; congruence).
  destruct (proj1 (build_total file (fuel_for file)) line w Hlt)
    as (e & n & w' & Hrun & _); [unfold fuel_for; lia|].
  exists e, n, w'. split; [exact Hrun|]. apply build_sound in Hrun.
  destruct (builds_bounds _ _ _ _ _ _ Hrun) as [Hle Hadv].
  split; [split; [apply (Hadv c Hc Hb)|assumption]|].
  apply (proj1 (builds_extent file) _ _ _ _ _ Hrun c Hc Hb).
Qed.

Lemma element_extent_witness :
  nth_error example_file 1 = Some (T "execute if b") /\
  is_blank (T "execute if b") = false /\
  exists e w',
    __build_element__ (fuel_for example_file) example_file 1 [] = Ok (e, 4, w') /\
    1 < 4 <= length example_file /\
    exists cn, nth_error example_file 4 = Some cn /\ is_blank cn = false /\
               __count_indents__ cn <= __count_indents__ (T "execute if b").
Proof.
  split; [reflexivity|]. split; [reflexivity|].
  destruct (element_extent example_file 1 (T "execute if b") []
              eq_refl eq_refl) as (e & n & w' & Hrun & Hb & _ & Hstop).
  assert (n = 4) as ->.
  { vm_compute in Hrun. injection Hrun as _ Hn _. symmetry. exact Hn. }
  exists e, w'. split; [exact Hrun|]. split; [exact Hb|].
  destruct Hstop as [Hend|Hstop]; [vm_compute in Hend; discriminate|].
  exact Hstop.
Defined.

(** ** When the builder warns *)

Lemma add_child_warn_text cur child w cur2 w2 :
  add_child cur child w = Ok (cur2, w2) ->
  Forall (fun x => x = warn_text) w -> Forall (fun x => x = warn_text) w2.
Proof.
  destruct cur; cbn [add_child]; try discriminate; intros [= <- <-]; auto.
  intros H. apply Forall_app. auto.
Qed.

Lemma builds_warn_text (file : list string) :
  (forall line w e n w',
      builds file line w e n w' ->
      Forall (fun x => x = warn_text) w -> Forall (fun x => x = warn_text) w') /\
  (forall indent cur m w e n w',
      loops file indent cur m w e n w' ->
      Forall (fun x => x = warn_text) w -> Forall (fun x => x = warn_text) w').
Proof.
  apply builds_loops_ind; auto.
  intros indent cur m w c child n1 w1 cur2 w2 e n w'
    _ _ _ _ _ IHb Ha _ IHl Hw.
  apply IHl. eapply add_child_warn_text; eauto.
Qed.

Lemma roots_warn_text (file : list string) line tree_list w trees w' :
  roots file line tree_list w trees w' ->
  Forall (fun x => x = warn_text) w -> Forall (fun x => x = warn_text) w'.
Proof.
  induction 1 as [| |line tl w c e n w1 trees w' _ _ _ Hb _ IH]; auto.
  intros Hw. apply IH. eapply (proj1 (builds_warn_text file)); eauto.
Qed.

Lemma builds_quiet (file : list string) :
  (forall line w e n w',
      builds file line w e n w' ->
      quiet_between file line n -> w' = w) /\
  (forall indent cur m w e n w',
      loops file indent cur m w e n w' ->
      quiet_between file m n ->
      (forall s, cur = PyMarker s ->
         forall j cj,
           m <= j ->
           (forall k ck, m <= k < j -> nth_error file k = Some ck ->
                         is_blank ck = true) ->
           nth_error file j = Some cj -> is_blank cj = false ->
           ~ indent < __count_indents__ cj) ->
      w' = w).
Proof.
  apply builds_loops_ind; auto.
  - intros line w c e n w' Hc Hb Hl IH Hq.
    assert (line < n) as Hlt.
    { eapply builds_bounds; [eapply builds_elem|..]; eassumption. }
    apply IH.
    + intros i Hi. apply Hq. lia.
    + intros s Hs j cj Hj Hblank Hcj Hbj Hdeep.
      apply (Hq line); [lia|].
      exists c, j, cj. split; [assumption|]. split.
      * apply classify_comment. split; [assumption|].
        unfold new_element, marker, node in Hs.
        destruct (startswith (strip c) "#"); [reflexivity|discriminate].
      * split; [|auto]. split; [lia|]. split; [eauto|].
        intros k ck Hk. apply Hblank. lia.
  - intros indent cur m w c e n w' _ Hc Hb Hl IH Hq Hm.
    assert (m + 1 <= n) as Hle.
    { clear - Hl. induction Hl; try lia.
      match goal with
      | H : builds _ _ _ _ _ _ |- _ =>
          destruct (builds_bounds _ _ _ _ _ _ H) as [_ Hadv];
          specialize (Hadv _ ltac:(eassumption) ltac:(eassumption))
      end. lia. }
    apply IH.
    + intros i Hi. apply Hq. lia.
    + intros s Hs j cj Hj Hblank Hcj Hbj.
      apply (Hm s Hs j cj); auto; [lia|].
      intros k ck Hk Hck.
      destruct (Nat.eq_dec k m) as [->|N]; [congruence|].
      apply (Hblank k ck); [lia|assumption].
  - intros indent cur m w c child n1 w1 cur2 w2 e n w'
      _ Hc Hb Hi Hbuild IHb Ha Hl IHl Hq Hm.
    destruct (builds_bounds _ _ _ _ _ _ Hbuild) as [_ Hadv].
    specialize (Hadv c Hc Hb).
    assert (n1 <= n) as Hle.
    { clear - Hl. induction Hl; try lia.
      match goal with
      | H : builds _ _ _ _ _ _ |- _ =>
          destruct (builds_bounds _ _ _ _ _ _ H) as [_ Hadv];
          specialize (Hadv _ ltac:(eassumption) ltac:(eassumption))
      end. lia. }
    destruct cur as [| |s|s children]; cbn [add_child] in Ha;
      try discriminate.
    + exfalso. apply (Hm s eq_refl m c); auto. intros; lia.
    + assert (w1 = w) as -> by (apply IHb; intros i Hin; apply Hq; lia).
      injection Ha as <- <-.
      apply IHl; [intros i Hin; apply Hq; lia|]. intros; discriminate.
Qed.

Lemma loops_advance (file : list string) indent cur m w e n w' :
  loops file indent cur m w e n w' -> m <= n.
Proof.
  induction 1; try lia.
  match goal with
  | H : builds _ _ _ _ _ _ |- _ =>
      destruct (builds_bounds _ _ _ _ _ _ H) as [_ Hadv];
      specialize (Hadv _ ltac:(eassumption) ltac:(eassumption))
  end. lia.
Qed.

Lemma roots_quiet (file : list string) line tree_list w trees w' :
  roots file line tree_list w trees w' ->
  (forall i, line <= i -> ~ comment_above_deeper_line file i) ->
  w' = w.
Proof.
  induction 1 as [|line tl w c trees w' _ _ _ _ IH
                 |line tl w c e n w1 trees w' _ Hc Hb Hbuild _ IH];
    intros Hq; auto.
  - apply IH. intros i Hi. apply Hq. lia.
  - destruct (builds_bounds _ _ _ _ _ _ Hbuild) as [_ Hadv].
    specialize (Hadv c Hc Hb).
    assert (w1 = w) as ->.
    { apply (proj1 (builds_quiet file) _ _ _ _ _ Hbuild).
      intros i Hi. apply Hq. lia. }
    apply IH. intros i Hi. apply Hq. lia.
Qed.

(** X2. The tree builder returns on every file; the warnings that it
    issues are all the one text of [marker.add_child], and there is none
    exactly when no comment line has a strictly deeper line as the first
    non-blank line below it. *)
Theorem warnings_only_below_comments :
  forall file, exists trees w,
    build_tree file = Ok (trees, w) /\
    Forall (fun x => x = warn_text) w /\
    (w = [] <-> forall i, ~ comment_above_deeper_line file i).
Proof.
  intros file. destruct (build_tree_total file) as (trees & w & Hb).
  exists trees, w. split; [exact Hb|].
  apply build_tree_roots in Hb. split.
  - apply (roots_warn_text _ _ _ _ _ _ Hb). constructor.
  - split.
    + intros -> i Hi.
      apply (roots_reach_comment _ _ _ _ _ _ Hb i) in Hi; [assumption|lia].
    + intros Hq. apply (roots_quiet _ _ _ _ _ _ Hb). intros i _. apply Hq.
Qed.

Lemma warnings_only_below_comments_witness :
  build_tree comment_file = Ok ([PyMarker "# c"; PyNode "y" []], [warn_text]) /\
  Forall (fun x => x = warn_text) [warn_text] /\
  ([warn_text] = [] <-> forall i, ~ comment_above_deeper_line comment_file i).
Proof.
  destruct (warnings_only_below_comments comment_file)
    as (trees & w & Hb & Hall & Hiff).
  assert (trees = [PyMarker "# c"; PyNode "y" []] /\ w = [warn_text])
    as [-> ->].
  { vm_compute in Hb. injection Hb as <- <-. split; reflexivity. }
  split; [exact Hb|]. split; [exact Hall|exact Hiff].
Defined.

(** ** Concatenation of strings *)

Lemma string_app_nil_r (s : string) : (s ++ "")%string = s.
Proof. induction s as [|c s IH]; cbn; [reflexivity|]. rewrite IH. reflexivity. Qed.

Lemma string_app_assoc (a b c : string) :
  ((a ++ b) ++ c)%string = (a ++ (b ++ c))%string.
Proof. induction a as [|x a IH]; cbn; [reflexivity|]. rewrite IH. reflexivity. Qed.

(** ** Input without content *)

Lemma compiled_string_loop_acc (ls : list string) :
  forall acc,
    compiled_string_loop ls acc = (acc ++ compiled_string_loop ls "")%string.
Proof.
  induction ls as [|l ls IH]; intros acc; cbn [compiled_string_loop].
  - symmetry. apply string_app_nil_r.
  - rewrite (IH (acc ++ (l ++ newline))%string), (IH ("" ++ (l ++ newline))%string).
    cbn [String.append]. rewrite string_app_assoc. reflexivity.
Qed.

Lemma compiled_string_cons (l : string) (ls : list string) :
  compiled_string_loop (l :: ls) ""
  = (l ++ newline ++ compiled_string_loop ls "")%string.
Proof.
  cbn [compiled_string_loop]. rewrite compiled_string_loop_acc.
  cbn [String.append]. rewrite string_app_assoc. reflexivity.
Qed.

Lemma sroots_grow rest tree_list w trees w' :
  sroots rest tree_list w trees w' ->
  exists more,
    trees = tree_list ++ more /\
    (more = [] <-> forallb is_blank rest = true).
Proof.
  induction 1 as [tl w
                 |c rest tl w trees w' Hb _ IH
                 |c rest tl w e rest1 w1 trees w' Hb Hbuild _ IH].
  - exists []. rewrite app_nil_r. split; [reflexivity|]. split; reflexivity.
  - destruct IH as (more & -> & Hiff). exists more.
    split; [reflexivity|]. cbn [forallb]. rewrite Hb. exact Hiff.
  - destruct IH as (more & -> & _). exists (e :: more).
    rewrite <- app_assoc. split; [reflexivity|].
    cbn [forallb]. rewrite Hb. split; discriminate.
Qed.

Lemma line_count_real (v : pyval) : real v = true -> 0 < line_count v.
Proof.
  unfold real, line_count.
  induction v as [| | |s children IH] using pyval_nested_ind;
    cbn [all_nodes]; try discriminate.
  - intros _. cbn. lia.
  - destruct children as [|c cs]; [intros _; cbn; lia|].
    cbn [andb forallb]. intros H. apply andb_true_iff in H.
    destruct H as [Hc _]. inversion IH as [|? ? IHc _]; subst.
    specialize (IHc Hc). cbn [leaf_count marker_count map].
    rewrite !list_sum_cons. lia.
Qed.

(** X3. The tree builder returns no root exactly when every line of the
    file is blank (an empty file included), and exactly then the compiled
    text is the empty string. *)
Theorem nothing_from_blank_lines_only :
  forall file,
    (forallb is_blank file = true <-> build_tree file = Ok ([], [])) /\
    (forallb is_blank file = true <-> compile_text file = Ok "").
Proof.
  intros file.
  destruct (build_tree_total file) as (trees & w & Hb).
  pose proof Hb as Hs. apply build_tree_sroots in Hs.
  destruct (sroots_grow _ _ _ _ _ Hs) as (more & Hmore & Hiff).
  cbn [app] in Hmore. subst more.
  assert (forallb is_blank file = true -> w = []) as Hw.
  { intros Hall.
    assert (nonblank_lines file = []) as E.
    { clear - Hall. induction file as [|c rest IH]; [reflexivity|].
      cbn [forallb] in Hall. apply andb_true_iff in Hall.
      destruct Hall as [Hc Hrest]. cbn [nonblank_lines filter].
      rewrite Hc. cbn [negb]. apply IH. assumption. }
    rewrite build_tree_nonblank, E in Hb. vm_compute in Hb. congruence. }
  split.
  - rewrite <- Hiff. split.
    + intros ->. rewrite Hb, Hw by (apply Hiff; reflexivity). reflexivity.
    + rewrite Hb. intros [= -> _]. reflexivity.
  - rewrite <- Hiff. unfold compile_text. rewrite Hb. cbn [bind]. split.
    + intros ->. reflexivity.
    + intros H. destruct trees as [|t ts]; [reflexivity|]. exfalso.
      pose proof (build_tree_real _ _ _ Hb) as Hreal.
      destruct (compiled_list_loop_lines _ Hreal []) as (l & Hl & Hlen).
      unfold compile_tree_list, compiled_list in H. rewrite Hl in H.
      cbn [bind app] in H. cbn [forallb] in Hreal.
      apply andb_true_iff in Hreal. destruct Hreal as [Ht _].
      apply line_count_real in Ht. unfold line_count in Ht.
      cbn [map] in Hlen. rewrite !list_sum_cons in Hlen.
      destruct l as [|x l]; [cbn [length] in Hlen; lia|].
      rewrite compiled_string_cons in H.
      destruct x; discriminate.
Qed.

Lemma nothing_from_blank_lines_only_witness :
  forallb is_blank [""; T "  "; " "] = true /\
  build_tree [""; T "  "; " "] = Ok ([], []) /\
  compile_text [""; T "  "; " "] = Ok "".
Proof.
  split; [reflexivity|].
  destruct (nothing_from_blank_lines_only [""; T "  "; " "]) as [[H1 _] [H2 _]].
  split; [apply H1; reflexivity|apply H2; reflexivity].
Defined.

(** ** When compiling raises *)

Lemma for_child_unreal (next_str : string) (cs : list pyval) :
  Forall (fun v => forall p, real v = false ->
                             compile v p = Raise AttributeError) cs ->
  forallb real cs = false ->
  forall acc, for_child next_str cs acc = Raise AttributeError.
Proof.
  induction 1 as [|v cs Hv _ IH]; [discriminate|].
  cbn [forallb for_child]. intros Hreal acc.
  destruct (real v) eqn:Ev.
  - destruct (compile_lines v Ev next_str) as (l & -> & _). cbn [bind].
    apply IH. assumption.
  - rewrite (Hv next_str eq_refl). reflexivity.
Qed.

(** X10. Compiling a tree succeeds exactly when the tree is real, that is
    made of [marker] and [node] objects only; on any other value, also one
    that sits somewhere below a [node], it raises [AttributeError]. *)
Theorem compile_raises_unless_real :
  forall tree p,
    (real tree = true -> exists lines, compile tree p = Ok lines) /\
    (real tree = false -> compile tree p = Raise AttributeError).
Proof.
  intros tree p. split.
  - intros H. destruct (compile_lines tree H p) as (l & Hl & _). eauto.
  - revert p. unfold real.
    induction tree as [| | |s children IH] using pyval_nested_ind;
      intros p; cbn [all_nodes]; try discriminate; try reflexivity.
    cbn [andb]. intros Hreal. rewrite compile_node.
    destruct children as [|c cs]; [discriminate|].
    change (0 <? length (c :: cs)) with true. cbv iota.
    apply for_child_unreal; assumption.
Qed.

Lemma compile_raises_unless_real_witness :
  real (PyNode "a" [PyMarker "# b"; PyNone]) = false /\
  compile (PyNode "a" [PyMarker "# b"; PyNone]) "" = Raise AttributeError.
Proof.
  split; [reflexivity|].
  apply (proj2 (compile_raises_unless_real
                  (PyNode "a" [PyMarker "# b"; PyNone]) "") eq_refl).
Defined.

(** ** The compiled lines, one by one *)

Lemma render_under (p s : string) (l : out_line) :
  render p (under s l) = render (p ++ s ++ " ") l.
Proof.
  destruct l as [m|path]; cbn [under render join_path]; [reflexivity|].
  rewrite !string_app_assoc. reflexivity.
Qed.


Lemma for_child_flatten (next_str : string) (cs : list pyval) :
  Forall (fun v => forall p, real v = true ->
                             compile v p = Ok (map (render p) (flatten v))) cs ->
  forallb real cs = true ->
  forall acc,
    for_child next_str cs acc
    = Ok (acc ++ map (render next_str) (flat_map flatten cs)).
Proof.
  induction 1 as [|v cs Hv _ IH]; intros Hreal acc;
    cbn [for_child flat_map map].
  - rewrite app_nil_r. reflexivity.
  - cbn [forallb] in Hreal. apply andb_true_iff in Hreal.
    destruct Hreal as [Hr Hrs].
    rewrite (Hv next_str Hr). cbn [bind]. rewrite (IH Hrs).
    rewrite map_app, app_assoc. reflexivity.
Qed.

Lemma compile_flatten (v : pyval) :
  forall p, real v = true -> compile v p = Ok (map (render p) (flatten v)).
Proof.
  unfold real.
  induction v as [| | |s children IH] using pyval_nested_ind;
    intros p; cbn [all_nodes]; try discriminate.
  - reflexivity.
  - cbn [andb]. intros Hreal. rewrite compile_node.
    destruct children as [|c cs].
    + cbn [flatten map render join_path]. rewrite string_app_nil_r.
      reflexivity.
    + change (0 <? length (c :: cs)) with true. cbv iota.
      rewrite (for_child_flatten _ _ IH Hreal).
      cbn [app flatten]. rewrite map_map.
      f_equal. apply map_ext. intros l. symmetry. apply render_under.
Qed.

Lemma compiled_list_loop_flatten (trees : list pyval) :
  forallb real trees = true ->
  forall acc,
    compiled_list_loop trees acc
    = Ok (acc ++ map (render "") (flat_map flatten trees)).
Proof.
  induction trees as [|t ts IH]; intros Hreal acc;
    cbn [compiled_list_loop flat_map map].
  - rewrite app_nil_r. reflexivity.
  - cbn [forallb] in Hreal. apply andb_true_iff in Hreal.
    destruct Hreal as [Ht Hts].
    rewrite (compile_flatten t "" Ht). cbn [bind]. rewrite (IH Hts).
    rewrite map_app, app_assoc. reflexivity.
Qed.

(** X9. A real tree compiles, under the prefix [p], to one line for each
    Marker and each Command Node without children, in the order of the
    tree: the text of the Marker as it is, and for the node [p] followed
    by the texts of the nodes from the top of the tree down to it, each
    followed by one space. The roots of every file compile so, under the
    empty prefix. *)
Theorem compiled_lines_are_paths :
  (forall tree p,
      real tree = true ->
      compile tree p = Ok (map (render p) (flatten tree))) /\
  (forall file, exists trees w,
      build_tree file = Ok (trees, w) /\
      compiled_list trees = Ok (map (render "") (flat_map flatten trees))).
Proof.
  split.
  - intros tree p H. apply compile_flatten. assumption.
  - intros file. destruct (build_tree_total file) as (trees & w & Hb).
    exists trees, w. split; [assumption|].
    unfold compiled_list.
    rewrite (compiled_list_loop_flatten _ (build_tree_real _ _ _ Hb)).
    reflexivity.
Qed.

Lemma compiled_lines_are_paths_witness :
  real example_tree = true /\
  compile example_tree ""
  = Ok (map (render "")
          [ command_line ["execute if a"; "execute if b"; "run cmd1"];
            command_line ["execute if a"; "execute if b"; "run cmd2"];
            command_line ["execute if a"; "if c"; "run cmd3"] ]).
Proof.
  split; [reflexivity|].
  apply (proj1 compiled_lines_are_paths example_tree "" eq_refl).
Defined.

(** ** An invariant of the elements that the builder makes *)

Section builder_invariant.
Variable file : list string.
Variable I : pyval -> Prop.
Hypothesis I_new :
  forall c, In c file -> is_blank c = false -> I (new_element c).
Hypothesis I_add :
  forall cur child w cur2 w2,
    add_child cur child w = Ok (cur2, w2) -> I cur -> I child -> I cur2.

Lemma builds_invariant :
  (forall line w e n w',
      builds file line w e n w' ->
      forall c, nth_error file line = Some c -> is_blank c = false -> I e) /\
  (forall indent cur m w e n w',
      loops file indent cur m w e n w' -> I cur -> I e).
Proof.
  apply builds_loops_ind; auto.
  - intros line w c Hc Hb c' Hc' Hb'. congruence.
  - intros line w c e n w' Hc Hb _ IH c' _ _.
    apply IH. apply I_new; [eapply nth_error_In; eassumption|assumption].
  - intros indent cur m w c child n1 w1 cur2 w2 e n w'
      _ Hc Hb _ _ IHb Ha _ IHl Hcur.
    apply IHl. eapply I_add; eauto.
Qed.

Lemma roots_invariant line tree_list w trees w' :
  roots file line tree_list w trees w' ->
  Forall I tree_list -> Forall I trees.
Proof.
  induction 1 as [| |line tl w c e n w1 trees w' _ Hc Hb Hbuild _ IH]; auto.
  intros Htl. apply IH. apply Forall_app. split; [assumption|].
  constructor; [|constructor].
  apply (proj1 builds_invariant _ _ _ _ _ Hbuild c Hc Hb).
Qed.
End builder_invariant.

(** ** Trimming, once more *)

Lemma lstrip_id (s : string) :
  match s with String c _ => isspace c = false | EmptyString => True end ->
  lstrip s = s.
Proof. destruct s as [|c r]; cbn; [reflexivity|]. intros ->. reflexivity. Qed.

Lemma rstrip_rstrip (s : string) : rstrip (rstrip s) = rstrip s.
Proof.
  induction s as [|c r IH]; [reflexivity|].
  cbn [rstrip]. destruct (rstrip r) as [|a r'] eqn:E.
  - destruct (isspace c) eqn:Ec; [reflexivity|].
    cbn [rstrip]. rewrite Ec. reflexivity.
  - cbn [rstrip]. cbn [rstrip] in IH. rewrite IH. reflexivity.
Qed.

Lemma strip_strip (s : string) : strip (strip s) = strip s.
Proof.
  unfold strip at 1. rewrite lstrip_id.
  - unfold strip. apply rstrip_rstrip.
  - destruct (strip s) as [|c r] eqn:E; [exact I|].
    eapply strip_head. eassumption.
Qed.

Lemma trimmed_strip (s : string) : trimmed (strip s) = true.
Proof. unfold trimmed. rewrite strip_strip. apply String.eqb_refl. Qed.

Lemma trimmed_rstrip (s : string) : trimmed s = true -> rstrip s = s.
Proof.
  unfold trimmed. intros H. apply String.eqb_eq in H.
  rewrite <- H at 1. unfold strip. rewrite rstrip_rstrip. exact H.
Qed.

Lemma trimmed_head (s : string) c r :
  trimmed s = true -> s = String c r -> isspace c = false.
Proof.
  unfold trimmed. intros H ->. apply String.eqb_eq in H.
  eapply strip_head. eassumption.
Qed.

Lemma rstrip_app_space (s : string) : rstrip (s ++ " ") = rstrip s.
Proof.
  induction s as [|c r IH]; [reflexivity|].
  cbn [String.append rstrip]. rewrite IH. reflexivity.
Qed.

Lemma rstrip_app (a b : string) :
  rstrip b <> "" -> rstrip (a ++ b) = (a ++ rstrip b)%string.
Proof.
  intros Hb. induction a as [|c a IH]; [reflexivity|].
  cbn [String.append rstrip]. rewrite IH.
  destruct (a ++ rstrip b)%string as [|x y] eqn:E; [|reflexivity].
  exfalso. destruct a; cbn in E; [contradiction|discriminate].
Qed.

Lemma no_newline_app (a b : string) :
  no_newline (a ++ b) = no_newline a && no_newline b.
Proof.
  induction a as [|c a IH]; cbn [String.append no_newline]; [reflexivity|].
  rewrite IH. apply andb_assoc.
Qed.

Lemma no_newline_lstrip (s : string) :
  no_newline s = true -> no_newline (lstrip s) = true.
Proof.
  induction s as [|c r IH]; cbn [lstrip no_newline]; [reflexivity|].
  intros H. destruct (isspace c); [|exact H].
  apply andb_true_iff in H. apply IH. tauto.
Qed.

Lemma no_newline_rstrip (s : string) :
  no_newline s = true -> no_newline (rstrip s) = true.
Proof.
  induction s as [|c r IH]; cbn [rstrip no_newline]; [reflexivity|].
  intros H. apply andb_true_iff in H. destruct H as [Hc Hr].
  specialize (IH Hr). destruct (rstrip r) as [|a r'].
  - destruct (isspace c); [reflexivity|]. cbn [no_newline]. rewrite Hc.
    reflexivity.
  - change (no_newline (String c (String a r')))
      with (negb (Ascii.eqb c "010") && no_newline (String a r')).
    rewrite Hc, IH. reflexivity.
Qed.

Lemma no_newline_strip (s : string) :
  no_newline s = true -> no_newline (strip s) = true.
Proof.
  intros H. unfold strip. apply no_newline_rstrip, no_newline_lstrip, H.
Qed.

(** ** Splitting the compiled text into lines *)

Lemma split_newline_no_newline (s : string) :
  Forall (fun l => no_newline l = true) (split_newline s).
Proof.
  induction s as [|c r IH]; cbn [split_newline].
  - constructor; [reflexivity|constructor].
  - destruct (Ascii.eqb c "010") eqn:Ec.
    + constructor; [reflexivity|assumption].
    + destruct (split_newline r) as [|piece pieces].
      * constructor; [|constructor]. cbn [no_newline]. rewrite Ec. reflexivity.
      * inversion IH; subst. constructor; [|assumption].
        cbn [no_newline]. rewrite Ec. assumption.
Qed.

Lemma split_newline_line (l rest : string) :
  no_newline l = true ->
  split_newline (l ++ newline ++ rest) = l :: split_newline rest.
Proof.
  induction l as [|c l IH]; cbn [String.append no_newline]; intros H.
  - reflexivity.
  - apply andb_true_iff in H. destruct H as [Hc Hl].
    cbn [split_newline]. apply negb_true_iff in Hc. rewrite Hc.
    rewrite (IH Hl). reflexivity.
Qed.

Lemma split_compiled_string (ls : list string) :
  Forall (fun l => no_newline l = true) ls ->
  split_newline (compiled_string_loop ls "") = ls ++ [""].
Proof.
  induction 1 as [|l ls Hl _ IH]; [reflexivity|].
  rewrite compiled_string_cons, (split_newline_line _ _ Hl), IH.
  reflexivity.
Qed.

(** ** The builder makes canonical trees *)

Lemma new_element_canonical (c : string) :
  no_newline c = true -> is_blank c = false ->
  canonical (new_element c) = true.
Proof.
  intros Hn Hb. unfold new_element, marker, node.
  destruct (startswith (strip c) "#") eqn:Es; cbn [canonical forallb];
    rewrite trimmed_strip, (no_newline_strip _ Hn), Es; [reflexivity|].
  unfold is_blank in Hb. rewrite Hb. reflexivity.
Qed.

Lemma add_child_canonical cur child w cur2 w2 :
  add_child cur child w = Ok (cur2, w2) ->
  canonical cur = true -> canonical child = true -> canonical cur2 = true.
Proof.
  destruct cur as [| |s|s children]; cbn [add_child]; try discriminate.
  - intros [= <- <-]. auto.
  - intros [= <- <-]. cbn [canonical]. intros Hcur Hchild.
    apply andb_true_iff in Hcur. destruct Hcur as [Hs Hch].
    rewrite Hs, forallb_app, Hch. cbn [andb forallb].
    destruct child; try discriminate; rewrite Hchild; reflexivity.
Qed.

Lemma build_tree_canonical (file : list string) trees w :
  Forall (fun l => no_newline l = true) file ->
  build_tree file = Ok (trees, w) ->
  Forall (fun t => canonical t = true) trees.
Proof.
  intros Hfile Hb. apply build_tree_roots in Hb.
  apply (roots_invariant file (fun t => canonical t = true)) in Hb; auto.
  - intros c Hin Hblank. apply new_element_canonical; [|assumption].
    rewrite Forall_forall in Hfile. auto.
  - intros cur child w0 cur2 w2. apply add_child_canonical.
Qed.

Lemma canonical_real (v : pyval) : canonical v = true -> real v = true.
Proof.
  unfold real. induction v as [| | |s children IH] using pyval_nested_ind;
    cbn [canonical all_nodes]; auto.
  intros H. apply andb_true_iff in H. destruct H as [_ H].
  cbn [andb]. rewrite forallb_forall in *. rewrite Forall_forall in IH.
  auto.
Qed.

(** ** Compiled lines are flat lines *)

Lemma not_indent_char (c : ascii) :
  isspace c = false -> existsb (Ascii.eqb c) indent_chars = false.
Proof.
  intros Hc. destruct (existsb (Ascii.eqb c) indent_chars) eqn:E;
    [|reflexivity].
  apply indent_char_test in E. destruct E as [->| ->]; discriminate.
Qed.

Lemma head_ok_app (a b : string) : head_ok a = true -> head_ok (a ++ b) = true.
Proof. destruct a; [discriminate|]. intros H. exact H. Qed.

Lemma flat_command (t : string) :
  head_ok t = true -> rstrip t = t -> no_newline t = true ->
  flat_line (t ++ " ").
Proof.
  intros Hh Hr Hn. destruct t as [|c r]; [discriminate|].
  cbn [head_ok] in Hh. apply andb_true_iff in Hh. destruct Hh as [Hs Hhash].
  apply negb_true_iff in Hs. apply negb_true_iff in Hhash.
  assert (strip (String c r ++ " ") = String c r) as Estrip.
  { unfold strip. rewrite lstrip_id by exact Hs.
    rewrite rstrip_app_space. exact Hr. }
  repeat split.
  - unfold __count_indents__. cbn [String.append count_indents_loop].
    rewrite (not_indent_char _ Hs). reflexivity.
  - rewrite is_blank_spec. cbn [String.append has_nonspace].
    rewrite Hs. reflexivity.
  - rewrite no_newline_app, Hn. reflexivity.
  - unfold new_element. rewrite Estrip, startswith_hash, Hhash.
    reflexivity.
Qed.

Lemma flat_comment (s : string) :
  trimmed s = true -> no_newline s = true -> startswith s "#" = true ->
  flat_line s.
Proof.
  intros Ht Hn Hs. pose proof Ht as Estrip. unfold trimmed in Estrip.
  apply String.eqb_eq in Estrip.
  rewrite startswith_hash in Hs. destruct s as [|c r]; [discriminate|].
  apply Ascii.eqb_eq in Hs. subst c.
  repeat split.
  - rewrite is_blank_spec. reflexivity.
  - assumption.
  - unfold new_element. rewrite Estrip, startswith_hash. reflexivity.
Qed.

Lemma for_child_flat (next_str : string) (cs : list pyval) :
  Forall (fun v => forall ls, compile v next_str = Ok ls ->
                              Forall flat_line ls) cs ->
  forall acc ls,
    for_child next_str cs acc = Ok ls ->
    Forall flat_line acc -> Forall flat_line ls.
Proof.
  induction 1 as [|v cs Hv _ IH]; intros acc ls; cbn [for_child].
  - intros [= <-]. auto.
  - intros H Hacc. apply bind_Ok in H. destruct H as (l1 & Hc & H).
    apply (IH _ _ H). apply Forall_app. split; [assumption|].
    apply Hv. assumption.
Qed.

Lemma compile_flat (v : pyval) :
  canonical v = true ->
  forall p ls,
    (p = "" \/ head_ok p = true) -> no_newline p = true ->
    compile v p = Ok ls -> Forall flat_line ls.
Proof.
  induction v as [| | |s children IH] using pyval_nested_ind;
    cbn [canonical]; try discriminate.
  - intros H p ls _ _ [= <-].
    apply andb_true_iff in H. destruct H as [H Hs].
    apply andb_true_iff in H. destruct H as [Ht Hn].
    constructor; [|constructor]. apply flat_comment; assumption.
  - intros H p ls Hp Hpn.
    apply andb_true_iff in H. destruct H as [H Hch].
    apply andb_true_iff in H. destruct H as [H Hhash].
    apply andb_true_iff in H. destruct H as [H Hlen].
    apply andb_true_iff in H. destruct H as [Ht Hn].
    apply negb_true_iff in Hhash. apply negb_true_iff in Hlen.
    assert (head_ok s = true) as Hhs.
    { rewrite startswith_hash in Hhash. destruct s as [|c r]; [discriminate|].
      cbn [head_ok]. rewrite Hhash, (trimmed_head _ c r Ht eq_refl).
      reflexivity. }
    assert (head_ok (p ++ s) = true) as Hh.
    { destruct Hp as [->|Hp]; [exact Hhs|apply head_ok_app; exact Hp]. }
    assert (rstrip (p ++ s) = (p ++ s)%string) as Hr.
    { rewrite rstrip_app; rewrite (trimmed_rstrip _ Ht); [reflexivity|].
      destruct s; discriminate. }
    assert (no_newline (p ++ s) = true) as Hpsn
        by (rewrite no_newline_app, Hpn, Hn; reflexivity).
    rewrite compile_node. rewrite <- string_app_assoc.
    destruct (0 <? length children).
    + intros Hrun. eapply for_child_flat; [|eassumption|constructor].
      rewrite Forall_forall in *. rewrite forallb_forall in Hch.
      intros x Hx ls' Hc.
      apply (IH x Hx (Hch x Hx) ((p ++ s) ++ " ")%string ls'); auto.
      * right. apply head_ok_app. exact Hh.
      * rewrite no_newline_app, Hpsn. reflexivity.
    + intros [= <-]. constructor; [|constructor].
      apply flat_command; assumption.
Qed.

Lemma sroots_flat (ls : list string) :
  Forall flat_line ls ->
  forall tree_list w,
    sroots ls tree_list w (tree_list ++ map new_element ls) w.
Proof.
  induction 1 as [|l ls Hl Hls IH]; intros tl w; cbn [map].
  - rewrite app_nil_r. apply sroots_end.
  - destruct Hl as (Hind & Hb & _ & _).
    eapply sroots_elem; [exact Hb| |].
    + apply sbuilds_elem; [exact Hb|]. rewrite Hind.
      instantiate (1 := w). instantiate (1 := ls).
      destruct Hls as [|l2 ls2 (Hind2 & Hb2 & _) _].
      * apply sloops_end.
      * apply sloops_break; [exact Hb2|]. rewrite Hind2. lia.
    + specialize (IH (tl ++ [new_element l]) w).
      rewrite <- app_assoc in IH. exact IH.
Qed.

Lemma compiled_list_loop_flat (ls : list string) :
  Forall flat_line ls ->
  forall acc, compiled_list_loop (map new_element ls) acc = Ok (acc ++ ls).
Proof.
  induction 1 as [|l ls Hl _ IH]; intros acc; cbn [map compiled_list_loop].
  - rewrite app_nil_r. reflexivity.
  - destruct Hl as (_ & _ & _ & ->). cbn [bind]. rewrite IH.
    rewrite <- app_assoc. reflexivity.
Qed.

Lemma nonblank_lines_id (ls : list string) :
  Forall (fun l => is_blank l = false) ls -> nonblank_lines ls = ls.
Proof.
  induction 1 as [|l ls Hl _ IH]; [reflexivity|].
  cbn [nonblank_lines filter]. rewrite Hl. cbn [negb].
  fold (nonblank_lines ls). rewrite IH. reflexivity.
Qed.

(** A file of flat lines, also with the empty piece that splitting leaves
    after the last newline, compiles to these lines. *)
Lemma compile_text_flat (ls : list string) :
  Forall flat_line ls ->
  compile_text (ls ++ [""]) = Ok (compiled_string_loop ls "").
Proof.
  intros Hflat.
  assert (build_tree (ls ++ [""]) = Ok (map new_element ls, [])) as Hb.
  { rewrite build_tree_nonblank.
    assert (nonblank_lines (ls ++ [""]) = ls) as ->.
    { unfold nonblank_lines. rewrite filter_app.
      change (filter (fun c => negb (is_blank c)) [""]) with (@nil string).
      rewrite app_nil_r. apply nonblank_lines_id.
      rewrite Forall_forall in *. intros l Hl.
      destruct (Hflat l Hl) as (_ & Hb & _). exact Hb. }
    apply build_tree_sroots. apply (sroots_flat ls Hflat [] []). }
  unfold compile_text. rewrite Hb. cbn [bind].
  unfold compile_tree_list, compiled_list.
  rewrite (compiled_list_loop_flat ls Hflat). reflexivity.
Qed.

Lemma compiled_list_loop_flat_lines (trees : list pyval) :
  Forall (fun t => canonical t = true) trees ->
  forall acc ls,
    compiled_list_loop trees acc = Ok ls ->
    Forall flat_line acc -> Forall flat_line ls.
Proof.
  induction 1 as [|t ts Ht _ IH]; intros acc ls; cbn [compiled_list_loop].
  - intros [= <-]. auto.
  - intros H Hacc. apply bind_Ok in H. destruct H as (l1 & Hc & H).
    apply (IH _ _ H). apply Forall_app. split; [assumption|].
    eapply (compile_flat t Ht ""); eauto.
Qed.

(** Every file of lines without a newline compiles to flat lines. *)
Lemma compile_text_lines (file : list string) :
  Forall (fun l => no_newline l = true) file ->
  exists trees w ls,
    build_tree file = Ok (trees, w) /\
    compiled_list trees = Ok ls /\
    Forall flat_line ls /\
    compile_text file = Ok (compiled_string_loop ls "").
Proof.
  intros Hfile. destruct (build_tree_total file) as (trees & w & Hb).
  destruct (compiled_list_loop_lines trees (build_tree_real _ _ _ Hb) [])
    as (ls & Hl & _). cbn [app] in Hl.
  exists trees, w, ls. split; [assumption|]. split; [exact Hl|]. split.
  - apply (compiled_list_loop_flat_lines trees
             (build_tree_canonical _ _ _ Hfile Hb) [] ls Hl). constructor.
  - unfold compile_text. rewrite Hb. cbn [bind].
    unfold compile_tree_list, compiled_list. rewrite Hl. reflexivity.
Qed.

(** X4. For every input text, the text that the compiler returns, split
    at its newlines as [compile_file] splits its input, is the list of the
    compiled lines followed by one empty piece: every compiled line ends
    with a newline and holds none. *)
Theorem compiled_text_splits_into_lines :
  forall in_text, exists trees w lines out,
    build_tree (split_newline in_text) = Ok (trees, w) /\
    compiled_list trees = Ok lines /\
    compile_text (split_newline in_text) = Ok out /\
    split_newline out = lines ++ [""].
Proof.
  intros in_text.
  destruct (compile_text_lines _ (split_newline_no_newline in_text))
    as (trees & w & ls & Hb & Hl & Hflat & Hout).
  exists trees, w, ls, (compiled_string_loop ls "").
  repeat split; auto.
  apply split_compiled_string.
  rewrite Forall_forall in *. intros l Hin.
  destruct (Hflat l Hin) as (_ & _ & Hn & _). exact Hn.
Qed.

(** X5. Compiling is idempotent: the text compiled from any input text,
    given to the compiler again, comes back as it is. *)
Theorem compile_is_idempotent :
  forall in_text, exists out,
    compile_text (split_newline in_text) = Ok out /\
    compile_text (split_newline out) = Ok out.
Proof.
  intros in_text.
  destruct (compile_text_lines _ (split_newline_no_newline in_text))
    as (trees & w & ls & Hb & Hl & Hflat & Hout).
  exists (compiled_string_loop ls ""). split; [exact Hout|].
  rewrite split_compiled_string.
  - apply compile_text_flat. exact Hflat.
  - rewrite Forall_forall in *. intros l Hin.
    destruct (Hflat l Hin) as (_ & _ & Hn & _). exact Hn.
Qed.

(** ** A line without indentation starts afresh *)

Lemma add_child_shift cur child w cur2 w2 :
  add_child cur child w = Ok (cur2, w2) ->
  exists d, w2 = w ++ d /\
            forall v, add_child cur child v = Ok (cur2, v ++ d).
Proof.
  destruct cur; cbn [add_child]; try discriminate; intros [= <- <-].
  - exists [warn_text]. auto.
  - exists []. rewrite app_nil_r. split; [reflexivity|].
    intros v. rewrite app_nil_r. reflexivity.
Qed.

Lemma sbuilds_shift :
  (forall rest w e rest' w',
      sbuilds rest w e rest' w' ->
      exists d, w' = w ++ d /\ forall v, sbuilds rest v e rest' (v ++ d)) /\
  (forall indent cur rest w e rest' w',
      sloops indent cur rest w e rest' w' ->
      exists d, w' = w ++ d /\
                forall v, sloops indent cur rest v e rest' (v ++ d)).
Proof.
  apply sbuilds_sloops_ind.
  - intros c rest w Hb. exists []. rewrite app_nil_r. split; [reflexivity|].
    intros v. rewrite app_nil_r. apply sbuilds_blank. assumption.
  - intros c rest w e rest' w' Hb _ (d & -> & IH). exists d.
    split; [reflexivity|]. intros v. apply sbuilds_elem; auto.
  - intros indent cur w. exists []. rewrite app_nil_r. split; [reflexivity|].
    intros v. rewrite app_nil_r. apply sloops_end.
  - intros indent cur c rest w e rest' w' Hb _ (d & -> & IH). exists d.
    split; [reflexivity|]. intros v. apply sloops_skip; auto.
  - intros indent cur c rest w child rest1 w1 cur2 w2 e rest' w'
      Hb Hi _ (d1 & -> & IHb) Ha _ (d3 & -> & IHl).
    destruct (add_child_shift _ _ _ _ _ Ha) as (d2 & -> & Ha').
    exists (d1 ++ d2 ++ d3). rewrite !app_assoc. split; [reflexivity|].
    intros v. eapply sloops_child; eauto.
    specialize (IHl ((v ++ d1) ++ d2)). rewrite !app_assoc in *. exact IHl.
  - intros indent cur c rest w Hb Hi. exists []. rewrite app_nil_r.
    split; [reflexivity|]. intros v. rewrite app_nil_r.
    apply sloops_break; assumption.
Qed.

Lemma sroots_shift rest tree_list w trees w' :
  sroots rest tree_list w trees w' ->
  exists more d,
    trees = tree_list ++ more /\ w' = w ++ d /\
    forall tl0 w0, sroots rest tl0 w0 (tl0 ++ more) (w0 ++ d).
Proof.
  induction 1 as [tl w
                 |c rest tl w trees w' Hb _ IH
                 |c rest tl w e rest1 w1 trees w' Hb Hbuild _ IH].
  - exists [], []. rewrite !app_nil_r. repeat split.
    intros tl0 w0. rewrite !app_nil_r. apply sroots_end.
  - destruct IH as (more & d & -> & -> & IH). exists more, d.
    repeat split. intros tl0 w0. apply sroots_skip; auto.
  - destruct IH as (more & d & -> & -> & IH).
    destruct (proj1 sbuilds_shift _ _ _ _ _ Hbuild) as (d1 & -> & Hb').
    exists (e :: more), (d1 ++ d). rewrite <- !app_assoc. repeat split.
    intros tl0 w0. eapply sroots_elem; [exact Hb|apply Hb'|].
    specialize (IH (tl0 ++ [e]) (w0 ++ d1)).
    rewrite <- !app_assoc in IH. exact IH.
Qed.

Section fresh_start.
Variable c : string.
Variable rest : list string.
Hypothesis c_nonblank : is_blank c = false.
Hypothesis c_flush : __count_indents__ c = 0.

Lemma sbuilds_before_fresh :
  (forall l w e r w',
      sbuilds l w e r w' ->
      sbuilds (l ++ c :: rest) w e (r ++ c :: rest) w') /\
  (forall indent cur l w e r w',
      sloops indent cur l w e r w' ->
      sloops indent cur (l ++ c :: rest) w e (r ++ c :: rest) w').
Proof.
  apply sbuilds_sloops_ind; intros; cbn [app] in *.
  - apply sbuilds_blank. assumption.
  - apply sbuilds_elem; assumption.
  - apply sloops_break; [exact c_nonblank|]. rewrite c_flush. lia.
  - apply sloops_skip; assumption.
  - eapply sloops_child; eassumption.
  - apply sloops_break; assumption.
Qed.

Lemma sroots_before_fresh l tree_list w trees w' :
  sroots l tree_list w trees w' ->
  forall trees2 w2,
    sroots (c :: rest) trees w' trees2 w2 ->
    sroots (l ++ c :: rest) tree_list w trees2 w2.
Proof.
  induction 1 as [tl w
                 |c0 rest0 tl w trees w' Hb _ IH
                 |c0 rest0 tl w e rest1 w1 trees w' Hb Hbuild _ IH];
    intros trees2 w2 H2; cbn [app].
  - exact H2.
  - apply sroots_skip; auto.
  - eapply sroots_elem; [exact Hb| |apply IH; exact H2].
    apply (proj1 sbuilds_before_fresh _ _ _ _ _ Hbuild).
Qed.
End fresh_start.

Lemma compiled_string_loop_app (l1 l2 : list string) :
  compiled_string_loop (l1 ++ l2) ""
  = (compiled_string_loop l1 "" ++ compiled_string_loop l2 "")%string.
Proof.
  induction l1 as [|l l1 IH]; [reflexivity|].
  cbn [app]. rewrite !compiled_string_cons, IH, !string_app_assoc.
  reflexivity.
Qed.

(** X6. A non-blank line without indentation separates what is above it
    from itself and what is below: the roots, the warnings and the
    compiled text of the whole file are those of the part above followed
    by those of the part from that line on. *)
Theorem flush_line_splits_the_file :
  forall above c below,
    is_blank c = false -> __count_indents__ c = 0 ->
    exists t1 w1 o1 t2 w2 o2,
      build_tree above = Ok (t1, w1) /\ compile_text above = Ok o1 /\
      build_tree (c :: below) = Ok (t2, w2) /\
      compile_text (c :: below) = Ok o2 /\
      build_tree (above ++ c :: below) = Ok (t1 ++ t2, w1 ++ w2) /\
      compile_text (above ++ c :: below) = Ok (o1 ++ o2)%string.
Proof.
  intros above c below Hb Hflush.
  destruct (build_tree_total above) as (t1 & w1 & H1).
  destruct (build_tree_total (c :: below)) as (t2 & w2 & H2).
  assert (build_tree (above ++ c :: below) = Ok (t1 ++ t2, w1 ++ w2)) as H12.
  { apply build_tree_sroots.
    apply build_tree_sroots in H1. pose proof H2 as H2'.
    apply build_tree_sroots in H2'.
    destruct (sroots_shift _ _ _ _ _ H2') as (more & d & E1 & E2 & Hshift).
    cbn [app] in E1, E2. subst more d.
    apply (sroots_before_fresh c below Hb Hflush _ _ _ _ _ H1).
    apply Hshift. }
  pose proof (build_tree_real _ _ _ H1) as R1.
  pose proof (build_tree_real _ _ _ H2) as R2.
  pose proof (build_tree_real _ _ _ H12) as R12.
  exists t1, w1,
    (compiled_string_loop (map (render "") (flat_map flatten t1)) ""),
    t2, w2,
    (compiled_string_loop (map (render "") (flat_map flatten t2)) "").
  unfold compile_text, compile_tree_list, compiled_list.
  rewrite H1, H2, H12. cbn [bind].
  rewrite !compiled_list_loop_flatten by assumption. cbn [bind app].
  repeat split; auto.
  rewrite flat_map_app, map_app, compiled_string_loop_app. reflexivity.
Qed.

Lemma flush_line_splits_the_file_witness :
  is_blank "y" = false /\ __count_indents__ "y" = 0 /\
  exists t1 w1 t2 w2,
    build_tree ["# c"; T "x"] = Ok (t1, w1) /\
    build_tree ["y"; T "z"] = Ok (t2, w2) /\
    build_tree (["# c"; T "x"] ++ ["y"; T "z"]) = Ok (t1 ++ t2, w1 ++ w2).
Proof.
  split; [reflexivity|]. split; [reflexivity|].
  destruct (flush_line_splits_the_file ["# c"; T "x"] "y" [T "z"]
              eq_refl eq_refl)
    as (t1 & w1 & o1 & t2 & w2 & o2 & H1 & _ & H2 & _ & H12 & _).
  exists t1, w1, t2, w2. auto.
Defined.

(** ** Writing a tree and building it again *)

Lemma lines_text_app (a b : list string) :
  lines_text (a ++ b) = (lines_text a ++ lines_text b)%string.
Proof.
  induction a as [|l a IH]; [reflexivity|].
  cbn [app lines_text]. rewrite IH.
  unfold newline. cbn [String.append]. rewrite string_app_assoc. reflexivity.
Qed.


Lemma to_str_node (s : string) (children : list pyval) (n : nat) :
  to_str (PyNode s children) n = for_child_str n children s.
Proof.
  cbn [to_str]. generalize s. clear s.
  induction children as [|child cs IH]; intros acc; [reflexivity|].
  cbn [for_child_str]. destruct (to_str child (n + 1)); cbn [bind]; auto.
Qed.

Lemma for_child_str_lines (d : nat) (cs : list pyval) :
  Forall (fun v => exists text,
              to_str v (d + 1 + 1) = Ok text /\
              (newline ++ tabs (d + 1) ++ text)%string
              = lines_text (tree_lines v (d + 1))) cs ->
  forall acc,
    for_child_str (d + 1) cs acc
    = Ok (acc ++ lines_text
                   (flat_map (fun c => tree_lines c (d + 1)) cs))%string.
Proof.
  induction 1 as [|v cs (text & Ht & Hl) _ IH]; intros acc;
    cbn [for_child_str flat_map lines_text].
  - rewrite string_app_nil_r. reflexivity.
  - rewrite Ht. cbn [bind]. rewrite IH, Hl, lines_text_app.
    rewrite string_app_assoc. reflexivity.
Qed.

Lemma to_str_lines (v : pyval) :
  real v = true ->
  forall d, exists text,
    to_str v (d + 1) = Ok text /\
    (newline ++ tabs d ++ text)%string = lines_text (tree_lines v d).
Proof.
  unfold real.
  induction v as [| | |s children IH] using pyval_nested_ind;
    cbn [all_nodes]; try discriminate; intros Hreal d.
  - exists s. split; [reflexivity|].
    cbn [tree_lines lines_text]. rewrite string_app_nil_r. reflexivity.
  - cbn [andb] in Hreal. rewrite to_str_node.
    rewrite for_child_str_lines.
    + eexists. split; [reflexivity|].
      cbn [tree_lines lines_text]. rewrite !string_app_assoc. reflexivity.
    + rewrite Forall_forall in *. rewrite forallb_forall in Hreal.
      intros x Hx. apply (IH x Hx (Hreal x Hx)).
Qed.

Lemma split_newline_single (l : string) :
  no_newline l = true -> split_newline l = [l].
Proof.
  induction l as [|c l IH]; cbn [no_newline split_newline]; [reflexivity|].
  intros H. apply andb_true_iff in H. destruct H as [Hc Hl].
  apply negb_true_iff in Hc. rewrite Hc, (IH Hl). reflexivity.
Qed.

Lemma split_lines_text (ls : list string) :
  Forall (fun l => no_newline l = true) ls ->
  forall l, no_newline l = true ->
            split_newline (l ++ lines_text ls) = l :: ls.
Proof.
  induction 1 as [|l2 ls Hl2 _ IH]; intros l Hl; cbn [lines_text].
  - rewrite string_app_nil_r. apply split_newline_single. assumption.
  - rewrite (split_newline_line _ _ Hl), (IH l2 Hl2). reflexivity.
Qed.

(** *** The first line of a canonical tree *)

Lemma no_newline_tabs (d : nat) : no_newline (tabs d) = true.
Proof. induction d as [|d IH]; [reflexivity|]. cbn. exact IH. Qed.

Lemma lstrip_tabs (d : nat) (s : string) : lstrip (tabs d ++ s) = lstrip s.
Proof. induction d as [|d IH]; [reflexivity|]. cbn. exact IH. Qed.

Lemma has_nonspace_tabs (d : nat) (s : string) :
  has_nonspace (tabs d ++ s) = has_nonspace s.
Proof. induction d as [|d IH]; [reflexivity|]. cbn. exact IH. Qed.

Lemma count_indents_tabs (d : nat) (s : string) :
  __count_indents__ (tabs d ++ s) = d + __count_indents__ s.
Proof.
  unfold __count_indents__. induction d as [|d IH]; [reflexivity|].
  cbn [tabs String.append count_indents_loop].
  change (existsb (Ascii.eqb tab) indent_chars) with true. cbv iota.
  rewrite count_indents_loop_acc, IH. lia.
Qed.

(** A trimmed text that is not empty, behind [d] tabs, is a line of depth
    [d] that is not blank and trims to the text. *)
Lemma tabbed_line (d : nat) (s : string) :
  trimmed s = true -> s <> "" ->
  __count_indents__ (tabs d ++ s) = d /\
  is_blank (tabs d ++ s) = false /\
  strip (tabs d ++ s) = s.
Proof.
  intros Ht Hne. destruct s as [|c r]; [contradiction|].
  pose proof (trimmed_head _ c r Ht eq_refl) as Hc.
  split; [|split].
  - rewrite count_indents_tabs. unfold __count_indents__.
    cbn [count_indents_loop]. rewrite (not_indent_char _ Hc). lia.
  - rewrite is_blank_spec, has_nonspace_tabs. cbn [has_nonspace].
    rewrite Hc. reflexivity.
  - unfold strip. rewrite lstrip_tabs, lstrip_id by exact Hc.
    apply trimmed_rstrip. assumption.
Qed.

Lemma canonical_text (v : pyval) :
  canonical v = true ->
  trimmed (text_of v) = true /\ text_of v <> "" /\
  no_newline (text_of v) = true /\
  (forall d, new_element (tabs d ++ text_of v)
             = match v with
               | PyMarker s => PyMarker s
               | _ => PyNode (text_of v) []
               end).
Proof.
  destruct v as [| |s|s children]; cbn [canonical text_of]; try discriminate.
  - intros H. apply andb_true_iff in H. destruct H as [H Hs].
    apply andb_true_iff in H. destruct H as [Ht Hn].
    assert (s <> "") as Hne by (destruct s; [discriminate|discriminate]).
    repeat split; auto. intros d.
    destruct (tabbed_line d s Ht Hne) as (_ & _ & E).
    unfold new_element. rewrite E, Hs. reflexivity.
  - intros H. apply andb_true_iff in H. destruct H as [H _].
    apply andb_true_iff in H. destruct H as [H Hhash].
    apply andb_true_iff in H. destruct H as [H Hlen].
    apply andb_true_iff in H. destruct H as [Ht Hn].
    apply negb_true_iff in Hhash.
    assert (s <> "") as Hne by (destruct s; [discriminate|discriminate]).
    repeat split; auto. intros d.
    destruct (tabbed_line d s Ht Hne) as (_ & _ & E).
    unfold new_element. rewrite E, Hhash. reflexivity.
Qed.

Lemma tree_lines_head (v : pyval) (d : nat) :
  canonical v = true ->
  exists tl, tree_lines v d = (tabs d ++ text_of v)%string :: tl.
Proof.
  destruct v; cbn [canonical tree_lines text_of]; try discriminate; eauto.
Qed.

Lemma tree_lines_no_newline (v : pyval) :
  canonical v = true ->
  forall d, Forall (fun l => no_newline l = true) (tree_lines v d).
Proof.
  induction v as [| | |s children IH] using pyval_nested_ind;
    intros Hc d; try discriminate.
  - destruct (canonical_text _ Hc) as (_ & _ & Hn & _).
    cbn [tree_lines]. constructor; [|constructor].
    rewrite no_newline_app, no_newline_tabs. exact Hn.
  - destruct (canonical_text _ Hc) as (_ & _ & Hn & _).
    cbn [tree_lines]. constructor.
    + rewrite no_newline_app, no_newline_tabs. exact Hn.
    + cbn [canonical] in Hc. apply andb_true_iff in Hc.
      destruct Hc as [_ Hch]. rewrite forallb_forall in Hch.
      rewrite Forall_forall in *. intros l Hl.
      apply in_flat_map in Hl. destruct Hl as (x & Hx & Hl).
      pose proof (IH x Hx (Hch x Hx) (d + 1)) as Hx'.
      rewrite Forall_forall in Hx'. apply Hx'. exact Hl.
Qed.

(** *** The builder on the lines of a tree *)

Lemma sloops_stop (d : nat) (cur : pyval) (post : list string) (w : warnings) :
  stops d post -> sloops d cur post w cur post w.
Proof.
  intros [->|(c & rest & -> & Hb & Hle)].
  - apply sloops_end.
  - apply sloops_break; [assumption|lia].
Qed.

Lemma stops_deeper (d : nat) (post : list string) :
  stops d post -> stops (d + 1) post.
Proof.
  intros [->|(c & rest & -> & Hb & Hle)]; [left; reflexivity|].
  right. exists c, rest. repeat split; auto. lia.
Qed.

Lemma stops_tree_lines (v : pyval) (d : nat) (more : list string) :
  canonical v = true -> stops d (tree_lines v d ++ more).
Proof.
  intros Hc. destruct (tree_lines_head v d Hc) as (tl & ->).
  destruct (canonical_text v Hc) as (Ht & Hne & _ & _).
  destruct (tabbed_line d _ Ht Hne) as (Hcount & Hb & _).
  right. eexists. eexists. split; [reflexivity|]. split; [exact Hb|]. lia.
Qed.

Lemma sloops_children (d : nat) (s : string) (post : list string)
  (w : warnings) :
  stops d post ->
  forall cs,
    Forall (fun v => canonical v = true /\
                     forall d post w,
                       stops d post ->
                       sbuilds (tree_lines v d ++ post) w v post w) cs ->
    forall done,
      sloops d (PyNode s done)
        (flat_map (fun c => tree_lines c (d + 1)) cs ++ post) w
        (PyNode s (done ++ cs)) post w.
Proof.
  intros Hstop cs Hcs.
  induction Hcs as [|v cs [Hc Hv] Hrest IH]; intros done; cbn [flat_map app].
  - rewrite app_nil_r. apply sloops_stop. assumption.
  - rewrite <- app_assoc.
    assert (stops (d + 1)
              (flat_map (fun c => tree_lines c (d + 1)) cs ++ post)) as Hpost.
    { destruct Hrest as [|v2 cs2 [Hc2 _] _]; cbn [flat_map app].
      - apply stops_deeper. assumption.
      - rewrite <- app_assoc. apply stops_tree_lines. assumption. }
    specialize (Hv (d + 1) _ w Hpost).
    destruct (tree_lines_head v (d + 1) Hc) as (tl & E).
    rewrite E in *. cbn [app] in *.
    destruct (canonical_text v Hc) as (Ht & Hne & _ & _).
    destruct (tabbed_line (d + 1) _ Ht Hne) as (Hcount & Hb & _).
    eapply sloops_child; [exact Hb|lia|exact Hv| |].
    + apply add_child_node. apply canonical_real. assumption.
    + specialize (IH (done ++ [v])). rewrite <- app_assoc in IH. exact IH.
Qed.

Lemma sbuilds_tree_lines (v : pyval) :
  canonical v = true ->
  forall d post w,
    stops d post -> sbuilds (tree_lines v d ++ post) w v post w.
Proof.
  induction v as [| | |s children IH] using pyval_nested_ind;
    intros Hc d post w Hstop; try discriminate.
  - destruct (canonical_text _ Hc) as (Ht & Hne & _ & Hnew).
    destruct (tabbed_line d _ Ht Hne) as (Hcount & Hb & _).
    cbn [text_of] in *. cbn [tree_lines app].
    apply sbuilds_elem; [exact Hb|]. rewrite Hcount, Hnew.
    apply sloops_stop. assumption.
  - destruct (canonical_text _ Hc) as (Ht & Hne & _ & Hnew).
    destruct (tabbed_line d _ Ht Hne) as (Hcount & Hb & _).
    cbn [text_of] in *. cbn [tree_lines app].
    apply sbuilds_elem; [exact Hb|]. rewrite Hcount, Hnew.
    apply (sloops_children d s post w Hstop children).
    cbn [canonical] in Hc. apply andb_true_iff in Hc.
    destruct Hc as [_ Hch]. rewrite forallb_forall in Hch.
    rewrite Forall_forall in *. intros x Hx. split; [auto|].
    apply IH; auto.
Qed.

(** X7. Writing and building are inverse on canonical trees: the text
    that [to_str] writes for such a tree, split into lines and given to
    the tree builder, gives this one tree back, without a warning. Every
    root that the builder makes from a text is such a tree. *)
Theorem to_str_then_build :
  (forall tree,
      canonical tree = true ->
      exists text,
        to_str tree 1 = Ok text /\
        split_newline text = tree_lines tree 0 /\
        build_tree (split_newline text) = Ok ([tree], [])) /\
  (forall in_text trees w,
      build_tree (split_newline in_text) = Ok (trees, w) ->
      Forall (fun tree => canonical tree = true) trees).
Proof.
  split.
  - intros tree Hc.
    destruct (to_str_lines tree (canonical_real _ Hc) 0) as (text & Ht & Hl).
    exists text. split; [exact Ht|].
    destruct (tree_lines_head tree 0 Hc) as (tl & E).
    pose proof (tree_lines_no_newline tree Hc 0) as Hn.
    rewrite E in Hl, Hn. cbn [tabs lines_text String.append] in Hl, Hn.
    unfold newline in Hl. cbn [String.append] in Hl.
    injection Hl as Hl. inversion Hn as [|? ? Hh Htl]; subst.
    assert (split_newline (text_of tree ++ lines_text tl)
            = tree_lines tree 0) as Hsplit.
    { rewrite E. cbn [tabs String.append].
      apply split_lines_text; assumption. }
    split; [exact Hsplit|]. rewrite Hsplit.
    apply build_tree_sroots.
    pose proof (sbuilds_tree_lines tree Hc 0 [] [] (or_introl eq_refl))
      as Hbuild.
    rewrite app_nil_r in Hbuild.
    destruct (canonical_text tree Hc) as (Htr & Hne & _ & _).
    destruct (tabbed_line 0 _ Htr Hne) as (_ & Hb & _).
    rewrite E in *. cbn [tabs String.append] in *.
    eapply sroots_elem; [exact Hb|exact Hbuild|apply sroots_end].
  - intros in_text trees w Hb.
    apply (build_tree_canonical _ _ _ (split_newline_no_newline in_text) Hb).
Qed.

Lemma to_str_then_build_witness :
  canonical example_tree = true /\
  exists text,
    to_str example_tree 1 = Ok text /\
    split_newline text = example_file /\
    build_tree (split_newline text) = Ok ([example_tree], []).
Proof.
  split; [reflexivity|].
  apply (proj1 to_str_then_build example_tree eq_refl).
Defined.

(** ** The loops of [main] after the checks *)

Lemma skipn_short (l : list string) (k : nat) :
  nth_error l k = None -> skipn k l = [].
Proof. intros H. apply skipn_all2. apply nth_error_None. exact H. Qed.

Lemma file_loop_from_spec (ifs ofs : list string) :
  forall n k calls,
    length ifs = k + n -> k <= length ofs ->
    file_loop_from ifs ofs (seq k n) calls
    = (calls ++ combine (skipn k ifs) (skipn k ofs),
       if length ifs <=? length ofs then Returns tt else Raises IndexError).
Proof.
  induction n as [|n IH]; intros k calls Hlen Hk; cbn [seq file_loop_from].
  - rewrite (skipn_all2 ifs) by lia. cbn [combine]. rewrite app_nil_r.
    replace (length ifs <=? length ofs) with true
      by (symmetry; apply Nat.leb_le; lia).
    reflexivity.
  - destruct (nth_error ifs k) as [a|] eqn:Ea;
      [|apply nth_error_None in Ea; lia].
    rewrite (skipn_nth _ _ _ Ea).
    destruct (nth_error ofs k) as [b|] eqn:Eb.
    + rewrite (skipn_nth _ _ _ Eb). cbn [combine].
      assert (k < length ofs) by (apply nth_error_Some; congruence).
      rewrite (IH (S k)) by lia.
      rewrite !Nat.add_1_r, <- app_assoc. reflexivity.
    + rewrite (skipn_short _ _ Eb), combine_nil, app_nil_r.
      apply nth_error_None in Eb.
      replace (length ifs <=? length ofs) with false
        by (symmetry; apply Nat.leb_gt; lia).
      reflexivity.
Qed.

(** The loop over the files gives [compile_file] the input and output
    files pair by pair, and raises when the output files run out. *)
Lemma file_loop_spec (c : config) :
  file_loop c
  = (combine (ifiles c) (ofiles c),
     if length (ifiles c) <=? length (ofiles c)
     then Returns tt else Raises IndexError).
Proof.
  unfold file_loop. rewrite file_loop_from_spec by lia. reflexivity.
Qed.

Lemma dirs_loop_from_spec (ds : list string) :
  forall n k pairs,
    length ds = 2 * (k + n) ->
    dirs_loop_from ds (map (fun j => 2 * j) (seq k n)) pairs
    = (pairs ++ pairs_of (skipn (2 * k) ds), Returns tt).
Proof.
  induction n as [|n IH]; intros k pairs Hlen; cbn [seq map dirs_loop_from].
  - rewrite skipn_all2 by lia. cbn [pairs_of]. rewrite app_nil_r. reflexivity.
  - destruct (nth_error ds (2 * k)) as [a|] eqn:Ea;
      [|apply nth_error_None in Ea; lia].
    destruct (nth_error ds (2 * k + 1)) as [b|] eqn:Eb;
      [|apply nth_error_None in Eb; lia].
    rewrite (skipn_nth _ _ _ Ea), (skipn_nth _ _ _ Eb). cbn [pairs_of].
    rewrite (IH (S k)) by lia.
    replace (2 * k + 1 + 1) with (2 * S k) by lia.
    rewrite <- app_assoc. reflexivity.
Qed.

Lemma dirs_loop_spec (c : config) :
  length (dirs c) mod 2 = 0 ->
  dirs_loop c = (pairs_of (dirs c), Returns tt).
Proof.
  intros Heven. unfold dirs_loop, range_by_two.
  pose proof (Nat.div_mod_eq (length (dirs c)) 2) as Hdiv.
  rewrite Heven, Nat.add_0_r in Hdiv.
  assert ((length (dirs c) + 1) / 2 = length (dirs c) / 2) as ->.
  { symmetry. apply (Nat.div_unique _ 2 _ 1); lia. }
  rewrite dirs_loop_from_spec by lia. reflexivity.
Qed.

Lemma pairs_of_flat (l : list string) :
  length l mod 2 = 0 ->
  flat_map (fun p => [fst p; snd p]) (pairs_of l) = l.
Proof.
  intros Heven.
  assert (forall n (l : list string),
             length l = 2 * n ->
             flat_map (fun p => [fst p; snd p]) (pairs_of l) = l) as H.
  { induction n as [|n IH]; intros [|a [|b r]] Hl; cbn [length] in Hl;
      try lia; [reflexivity|].
    cbn [pairs_of flat_map fst snd app]. rewrite IH by lia. reflexivity. }
  apply (H (length l / 2)).
  pose proof (Nat.div_mod_eq (length l) 2). lia.
Qed.

Lemma mod2_not_1 (n : nat) : (n mod 2 =? 1) = false -> n mod 2 = 0.
Proof.
  intros H. apply Nat.eqb_neq in H.
  pose proof (Nat.mod_upper_bound n 2). lia.
Qed.

(** X8. A config file that passes the verification leaves a config on
    which the loops of [main] never read out of range: there are as many
    output files as input files and [compile_file] is called on them pair
    by pair, in order; the directories are an even number and are read
    two by two, in order. *)
Theorem verified_config_is_safe :
  forall loaded c,
    verify_config loaded = Returns c ->
    length (ifiles c) = length (ofiles c) /\
    file_loop c = (combine (ifiles c) (ofiles c), Returns tt) /\
    dirs_loop c = (pairs_of (dirs c), Returns tt) /\
    flat_map (fun p => [fst p; snd p]) (pairs_of (dirs c)) = dirs c.
Proof.
  intros [li lo ld] c. unfold verify_config.
  cbn [loaded_ifiles loaded_ofiles loaded_dirs].
  assert (forall i o d,
             length i = length o -> length d mod 2 = 0 ->
             Returns {| ifiles := i; ofiles := o; dirs := d |} = Returns c ->
             length (ifiles c) = length (ofiles c) /\
             file_loop c = (combine (ifiles c) (ofiles c), Returns tt) /\
             dirs_loop c = (pairs_of (dirs c), Returns tt) /\
             flat_map (fun p => [fst p; snd p]) (pairs_of (dirs c)) = dirs c)
    as Hgood.
  { intros i o d Hio Hd [= <-]. cbn [ifiles ofiles dirs].
    split; [exact Hio|]. split; [|split].
    - rewrite file_loop_spec. cbn [ifiles ofiles]. rewrite Hio, Nat.leb_refl.
      reflexivity.
    - apply dirs_loop_spec. exact Hd.
    - apply pairs_of_flat. exact Hd. }
  destruct li as [i|], lo as [o|]; try discriminate.
  - destruct (length i =? length o) eqn:Eio; cbn [negb]; [|discriminate].
    apply Nat.eqb_eq in Eio.
    destruct ld as [d|]; cbn [setdefault].
    + destruct (length d mod 2 =? 1) eqn:Ed; [discriminate|].
      apply Hgood; [exact Eio|apply mod2_not_1; exact Ed].
    + apply Hgood; [exact Eio|reflexivity].
  - destruct ld as [d|]; cbn [setdefault].
    + destruct (length d mod 2 =? 1) eqn:Ed; [discriminate|].
      apply Hgood; [reflexivity|apply mod2_not_1; exact Ed].
    + apply Hgood; reflexivity.
Qed.

Lemma verified_config_is_safe_witness :
  verify_config {| loaded_ifiles := Some ["a.ams"; "b.ams"];
                   loaded_ofiles := Some ["a.mcfunction"; "b.mcfunction"];
                   loaded_dirs := None |}
  = Returns {| ifiles := ["a.ams"; "b.ams"];
               ofiles := ["a.mcfunction"; "b.mcfunction"];
               dirs := [] |} /\
  file_loop {| ifiles := ["a.ams"; "b.ams"];
               ofiles := ["a.mcfunction"; "b.mcfunction"];
               dirs := [] |}
  = ([("a.ams", "a.mcfunction"); ("b.ams", "b.mcfunction")], Returns tt).
Proof.
  split; [reflexivity|].
  apply (verified_config_is_safe
           {| loaded_ifiles := Some ["a.ams"; "b.ams"];
              loaded_ofiles := Some ["a.mcfunction"; "b.mcfunction"];
              loaded_dirs := None |} _ eq_refl).
Defined.



(** ** What is indented below a comment is lost *)

Lemma sbuilds_comment_alone (c : string) (post : list string) (w : warnings) :
  classify c = kind_comment -> stops (__count_indents__ c) post ->
  sbuilds (c :: post) w (PyMarker (strip c)) post w.
Proof.
  intros Hk Hstop. apply classify_comment in Hk. destruct Hk as [Hb Hs].
  apply sbuilds_elem; [exact Hb|].
  unfold new_element. rewrite Hs. apply sloops_stop. exact Hstop.
Qed.

Lemma nth_error_below (c : string) (block post : list string) (k : nat) ck :
  below c block ->
  1 <= k < 1 + length block ->
  nth_error (c :: block ++ post) k = Some ck ->
  is_blank ck = true \/ __count_indents__ c < __count_indents__ ck.
Proof.
  intros Hbelow Hk Hck. destruct k as [|k]; [lia|]. cbn [nth_error] in Hck.
  rewrite nth_error_app1 in Hck by lia.
  unfold below in Hbelow. rewrite Forall_forall in Hbelow.
  apply Hbelow. eapply nth_error_In. eassumption.
Qed.

Lemma sbuilds_comment_block (c : string) (block post : list string)
  (w : warnings) :
  classify c = kind_comment -> below c block ->
  stops (__count_indents__ c) post ->
  exists w1, sbuilds (c :: block ++ post) w (PyMarker (strip c)) post w1.
Proof.
  intros Hk Hbelow Hstop. pose proof Hk as Hk'.
  apply classify_comment in Hk'. destruct Hk' as [Hb Hs].
  set (file := c :: block ++ post).
  assert (nth_error file 0 = Some c) as Hc by reflexivity.
  destruct (proj1 (build_total file (fuel_for file)) 0 w)
    as (e & n & w1 & Hrun & Hn & _);
    [cbn; lia|unfold fuel_for; lia|].
  apply build_sound in Hrun.
  destruct (builds_bounds _ _ _ _ _ _ Hrun) as [_ Hadv].
  specialize (Hadv c Hc Hb).
  destruct (proj1 (builds_extent file) _ _ _ _ _ Hrun c Hc Hb)
    as [Hin Hend].
  assert (e = PyMarker (strip c)) as ->.
  { inversion Hrun as [|? ? c0 ? ? ? Hc0 Hb0 Hl]; subst; [congruence|].
    assert (c0 = c) by congruence. subst c0.
    unfold new_element in Hl. rewrite Hs in Hl.
    apply loops_marker in Hl. exact Hl. }
  assert (length file = 1 + length block + length post) as Hlen.
  { unfold file. cbn [length]. rewrite length_app. lia. }
  assert (n = 1 + length block) as Hn1.
  { destruct (Nat.lt_trichotomy n (1 + length block)) as [Hlt|[Heq|Hgt]];
      [|exact Heq|].
    - exfalso. destruct Hend as [Hend|(cn & Hcn & Hbn & Hle)]; [lia|].
      destruct (nth_error_below c block post n cn Hbelow) as [?|?];
        [lia|exact Hcn|congruence|lia].
    - exfalso. destruct Hstop as [->|(p0 & rest & -> & Hbp & Hlep)].
      + cbn [length] in Hlen. lia.
      + assert (nth_error file (1 + length block) = Some p0) as Hp0.
        { unfold file. cbn [Nat.add nth_error].
          rewrite nth_error_app2 by lia. rewrite Nat.sub_diag. reflexivity. }
        destruct (Hin (1 + length block) p0) as [?|?];
          [lia|exact Hp0|congruence|lia]. }
  exists w1. apply (proj1 (builds_suffix file)) in Hrun.
  cbn [skipn] in Hrun. subst n. unfold file in Hrun.
  cbn [Nat.add skipn] in Hrun.
  rewrite skipn_app, skipn_all, Nat.sub_diag in Hrun.
  cbn [skipn app] in Hrun. exact Hrun.
Qed.

Lemma skipn_succ (l : list string) (k : nat) c0 rest :
  c0 :: rest = skipn k l -> rest = skipn (S k) l.
Proof.
  intros H. change (S k) with (1 + k). rewrite <- skipn_skipn, <- H.
  reflexivity.
Qed.

Section comment_block.
Variable c : string.
Variables block post : list string.
Hypothesis c_comment : classify c = kind_comment.
Hypothesis block_below : below c block.
Hypothesis post_stops : stops (__count_indents__ c) post.

Lemma comment_nonblank : is_blank c = false.
Proof. apply classify_comment in c_comment. tauto. Qed.

Lemma without_block_head c0 rest l' :
  without_block c block post (c0 :: rest) l' ->
  exists rest', l' = c0 :: rest'.
Proof.
  intros [(pre & E & ->)|[-> _]]; [|eauto].
  destruct pre as [|x pre]; cbn [app] in *; injection E as -> _; eauto.
Qed.

Lemma without_block_tail c0 rest rest' :
  is_blank c0 = true \/ c0 <> c ->
  without_block c block post (c0 :: rest) (c0 :: rest') ->
  without_block c block post rest rest'.
Proof.
  intros Hc0 [(pre & E & E')|[E (k & Hk)]].
  - destruct pre as [|x pre]; cbn [app] in *.
    + injection E as -> _. exfalso.
      destruct Hc0 as [Hb|N]; [|contradiction].
      pose proof comment_nonblank. congruence.
    + injection E as _ ->. injection E' as ->. left. eauto.
  - injection E as ->. right. split; [reflexivity|].
    exists (S k). eapply skipn_succ. exact Hk.
Qed.

Lemma sbuilds_without_block :
  (forall l w e r w',
      sbuilds l w e r w' ->
      forall l' v, without_block c block post l l' ->
        exists r' v', without_block c block post r r' /\
                      sbuilds l' v e r' v') /\
  (forall indent cur l w e r w',
      sloops indent cur l w e r w' ->
      forall l' v, without_block c block post l l' ->
        exists r' v', without_block c block post r r' /\
                      sloops indent cur l' v e r' v').
Proof.
  apply sbuilds_sloops_ind.
  - intros c0 rest w Hb l' v Hrel.
    destruct (without_block_head _ _ _ Hrel) as (rest' & ->).
    exists (c0 :: rest'), v. split; [exact Hrel|].
    apply sbuilds_blank. exact Hb.
  - intros c0 rest w e r w' Hb Hl IH l' v Hrel.
    destruct Hrel as [(pre & E & ->)|[-> (k & Hk)]].
    + destruct pre as [|x pre]; cbn [app] in *.
      * injection E as -> ->.
        destruct (sbuilds_comment_block c block post w
                    c_comment block_below post_stops) as (w1 & H1).
        destruct (proj1 sbuilds_sloops_functional _ _ _ _ _ H1 e r w'
                    (sbuilds_elem _ _ _ _ _ _ Hb Hl)) as (-> & -> & _).
        exists post, v. split.
        -- right. split; [reflexivity|]. exists 0. reflexivity.
        -- apply sbuilds_comment_alone; assumption.
      * injection E as -> ->.
        destruct (IH (pre ++ c :: post) v) as (r' & v' & Hr & Hl').
        { left. eauto. }
        exists r', v'. split; [exact Hr|].
        apply sbuilds_elem; assumption.
    + destruct (IH rest v) as (r' & v' & Hr & Hl').
      { right. split; [reflexivity|]. exists (S k).
        eapply skipn_succ. exact Hk. }
      exists r', v'. split; [exact Hr|]. apply sbuilds_elem; assumption.
  - intros indent cur w l' v [(pre & E & _)|[-> _]].
    + destruct pre; discriminate.
    + exists [], v. split; [|apply sloops_end].
      right. split; [reflexivity|]. exists (length post).
      symmetry. apply skipn_all.
  - intros indent cur c0 rest w e r w' Hb Hl IH l' v Hrel.
    destruct (without_block_head _ _ _ Hrel) as (rest' & ->).
    destruct (IH rest' v) as (r' & v' & Hr & Hl').
    { eapply without_block_tail; [left; exact Hb|exact Hrel]. }
    exists r', v'. split; [exact Hr|]. apply sloops_skip; assumption.
  - intros indent cur c0 rest w child r1 w1 cur2 w2 e r w'
      Hb Hi Hbuild IHb Ha Hl IHl l' v Hrel.
    destruct (without_block_head _ _ _ Hrel) as (rest' & ->).
    destruct (IHb _ v Hrel) as (r1' & v1 & Hr1 & Hbuild').
    destruct (add_child_shift _ _ _ _ _ Ha) as (d & _ & Ha').
    destruct (IHl r1' (v1 ++ d) Hr1) as (r' & v' & Hr & Hl').
    exists r', v'. split; [exact Hr|].
    eapply sloops_child; eauto.
  - intros indent cur c0 rest w Hb Hi l' v Hrel.
    destruct (without_block_head _ _ _ Hrel) as (rest' & ->).
    exists (c0 :: rest'), v. split; [exact Hrel|].
    apply sloops_break; assumption.
Qed.

Lemma sroots_without_block l tree_list w trees w' :
  sroots l tree_list w trees w' ->
  forall l' v, without_block c block post l l' ->
    exists v', sroots l' tree_list v trees v'.
Proof.
  induction 1 as [tl w
                 |c0 rest tl w trees w' Hb _ IH
                 |c0 rest tl w e rest1 w1 trees w' Hb Hbuild _ IH];
    intros l' v Hrel.
  - destruct Hrel as [(pre & E & _)|[-> _]]; [destruct pre; discriminate|].
    exists v. apply sroots_end.
  - destruct (without_block_head _ _ _ Hrel) as (rest' & ->).
    destruct (IH rest' v) as (v' & Hr).
    { eapply without_block_tail; [left; exact Hb|exact Hrel]. }
    exists v'. apply sroots_skip; assumption.
  - destruct (without_block_head _ _ _ Hrel) as (rest' & ->).
    destruct (proj1 sbuilds_without_block _ _ _ _ _ Hbuild _ v Hrel)
      as (r1' & v1 & Hr1 & Hbuild').
    destruct (IH r1' v1 Hr1) as (v' & Hr).
    exists v'. eapply sroots_elem; eauto.
Qed.
End comment_block.

(** X12. The lines below a comment that are blank or deeper than the
    comment, up to the end of the file or to the first non-blank line that
    is not deeper, leave no trace but warnings: the file without these
    lines gives the same roots and the same compiled text. *)
Theorem lines_below_comment_are_lost :
  forall pre c block post,
    classify c = kind_comment ->
    below c block ->
    stops (__count_indents__ c) post ->
    exists trees w w',
      build_tree (pre ++ c :: block ++ post) = Ok (trees, w) /\
      build_tree (pre ++ c :: post) = Ok (trees, w') /\
      compile_text (pre ++ c :: block ++ post)
      = compile_text (pre ++ c :: post).
Proof.
  intros pre c block post Hk Hbelow Hstop.
  destruct (build_tree_total (pre ++ c :: block ++ post))
    as (trees & w & Hb).
  pose proof Hb as Hs. apply build_tree_sroots in Hs.
  destruct (sroots_without_block c block post Hk Hbelow Hstop
              _ _ _ _ _ Hs (pre ++ c :: post) []) as (w' & Hs').
  { left. eauto. }
  apply build_tree_sroots in Hs'.
  exists trees, w, w'. split; [exact Hb|]. split; [exact Hs'|].
  unfold compile_text. rewrite Hb, Hs'. reflexivity.
Qed.

Lemma lines_below_comment_are_lost_witness :
  classify "# c" = kind_comment /\
  below "# c" [T "x"; ""; T (T "# d")] /\
  stops (__count_indents__ "# c") ["y"] /\
  exists trees w w',
    build_tree (["a"] ++ "# c" :: [T "x"; ""; T (T "# d")] ++ ["y"])
    = Ok (trees, w) /\
    build_tree (["a"] ++ "# c" :: ["y"]) = Ok (trees, w').
Proof.
  assert (below "# c" [T "x"; ""; T (T "# d")]) as Hbelow.
  { unfold below.
    apply Forall_cons; [right; vm_compute; lia|].
    apply Forall_cons; [left; reflexivity|].
    apply Forall_cons; [right; vm_compute; lia|apply Forall_nil]. }
  assert (stops (__count_indents__ "# c") ["y"]) as Hstop.
  { right. exists "y", []. split; [reflexivity|].
    split; [reflexivity|]. vm_compute. lia. }
  split; [reflexivity|]. split; [exact Hbelow|]. split; [exact Hstop|].
  destruct (lines_below_comment_are_lost ["a"] "# c" [T "x"; ""; T (T "# d")]
              ["y"] eq_refl Hbelow Hstop)
    as (trees & w & w' & H1 & H2 & _).
  exists trees, w, w'. split; [exact H1|exact H2].
Defined.
